(** * Tacotron2 orchestration layer (models/tacotron2.py)

    A shallow embedding of the [Tacotron2] module: the construction of the
    model, the teacher-forced [forward] pass, [inference],
    [inference_truncated] and the helpers they call.

    - Tensors are a shape together with an indexing function; the element
      type is a parameter (the source computes on floats, and nothing below
      depends on the arithmetic of the elements other than through [eadd]).
    - Python exceptions are values of [exn]; a call returns [Ok v] or
      [Raise e] together with the state it leaves behind.
    - The object [self] is a record; the [Decoder] modules live in a heap
      of references, since [copy.deepcopy] and attribute assignment differ
      exactly in what they share.
    - [Encoder], [Decoder] and [Postnet] come from TTS.layers.tacotron2 and
      are an interface here ([Layers]). *)

From Stdlib Require Import ZArith List String Bool Lia QArith.
From stdpp Require Import base option gmap.

Set Implicit Arguments.
Unset Strict Implicit.
Set Default Proof Using "Type".

Open Scope Z_scope.
Open Scope nat_scope.

(** ** Exceptions and results *)

Inductive exn : Type :=
  Exn (cls : string) (msg : string).

Definition exn_class (e : exn) : string := let 'Exn c _ := e in c.
Definition exn_msg (e : exn) : string := let 'Exn _ m := e in m.

Definition RuntimeError (msg : string) : exn := Exn "RuntimeError" msg.
Definition IndexError (msg : string) : exn := Exn "IndexError" msg.
Definition NameError (msg : string) : exn := Exn "NameError" msg.
Definition AttributeError (msg : string) : exn := Exn "AttributeError" msg.
Definition TypeError (msg : string) : exn := Exn "TypeError" msg.

Inductive result (A : Type) : Type :=
| Ok (a : A)
| Raise (e : exn).
Arguments Ok {A} a.
Arguments Raise {A} e.

Definition is_ok {A} (r : result A) : bool :=
  match r with Ok _ => true | Raise _ => false end.

(** ** Tensors *)

Section Tensors.
Context {A : Type}.

(** A 2-d tensor of shape (rows, cols) and a 3-d tensor of shape
    (size0, size1, size2).  Indices outside the shape are never read by
    the operations below. *)
Record tensor2 : Type := T2 { rows : nat; cols : nat; at2 : nat -> nat -> A }.
Record tensor3 : Type :=
  T3 { size0 : nat; size1 : nat; size2 : nat; at3 : nat -> nat -> nat -> A }.

(** [t.transpose(1, 2)] *)
Definition transpose12 (t : tensor3) : tensor3 :=
  T3 (size0 t) (size2 t) (size1 t) (fun b i j => at3 t b j i).

(** [torch.flip(t, dims=(1,))] *)
Definition flip1 (t : tensor3) : tensor3 :=
  T3 (size0 t) (size1 t) (size2 t) (fun b i j => at3 t b (size1 t - 1 - i) j).

(** [t.unsqueeze_(1)] on a 2-d tensor *)
Definition unsqueeze1 (t : tensor2) : tensor3 :=
  T3 (rows t) 1 (cols t) (fun b _ j => at2 t b j).

(** [t.expand(n0, n1, -1)]: a dimension is kept when it already has the
    requested size and is repeated when it has size 1. *)
Definition expand (t : tensor3) (n0 n1 : nat) : result tensor3 :=
  if ((size0 t =? n0) || (size0 t =? 1)) && ((size1 t =? n1) || (size1 t =? 1))
  then Ok (T3 n0 n1 (size2 t)
             (fun b i j => at3 t (if size0 t =? 1 then 0 else b)
                                 (if size1 t =? 1 then 0 else i) j))
  else Raise (RuntimeError
    "The expanded size of the tensor must match the existing size at non-singleton dimension").

(** [torch.cat([a, b], dim=-1)] *)
Definition cat_last (a b : tensor3) : result tensor3 :=
  if (size0 a =? size0 b) && (size1 a =? size1 b)
  then Ok (T3 (size0 a) (size1 a) (size2 a + size2 b)
             (fun n i j => if j <? size2 a then at3 a n i j
                           else at3 b n i (j - size2 a)))
  else Raise (RuntimeError "Sizes of tensors must match except in dimension 2").

(** Broadcasting of one dimension: equal sizes, or one of them is 1. *)
Definition broadcast_dim (m n : nat) : option nat :=
  if m =? n then Some m
  else if m =? 1 then Some n
  else if n =? 1 then Some m
  else None.

(** [a + b] on 3-d tensors, with torch's broadcasting. *)
Definition add3 (eadd : A -> A -> A) (a b : tensor3) : result tensor3 :=
  match broadcast_dim (size0 a) (size0 b),
        broadcast_dim (size1 a) (size1 b),
        broadcast_dim (size2 a) (size2 b) with
  | Some n0, Some n1, Some n2 =>
      Ok (T3 n0 n1 n2
            (fun n i j =>
               eadd (at3 a (if size0 a =? 1 then 0 else n)
                           (if size1 a =? 1 then 0 else i)
                           (if size2 a =? 1 then 0 else j))
                    (at3 b (if size0 b =? 1 then 0 else n)
                           (if size1 b =? 1 then 0 else i)
                           (if size2 b =? 1 then 0 else j))))
  | _, _, _ =>
      Raise (RuntimeError
        "The size of tensor a must match the size of tensor b at non-singleton dimension")
  end.
End Tensors.
Arguments tensor2 A : clear implicits.
Arguments tensor3 A : clear implicits.

(** ** Collaborators

    [Encoder], [Decoder] and [Postnet] are defined in TTS.layers.tacotron2.
    Each is a torch module: an object holding parameters and buffers, which
    a call may read and update (batch-norm statistics, retained recurrent
    state).  A call therefore returns its result together with the module
    as the call leaves it. *)

Class Layers (elem : Type) : Type := {
  EncoderT : Type;
  DecoderT : Type;
  PostnetT : Type;
  (** constructors, with the positional arguments of the source *)
  Encoder : Z -> result EncoderT;
  Decoder : Z -> Z -> Z -> string -> bool -> string -> string -> bool ->
            bool -> bool -> bool -> bool -> Z -> bool -> result DecoderT;
  Postnet : Z -> result PostnetT;
  (** [self.encoder(x, lengths)], [.inference(x)], [.inference_truncated(x)] *)
  Encoder_call : EncoderT -> tensor3 elem -> list Z -> result (tensor3 elem) * EncoderT;
  Encoder_inference : EncoderT -> tensor3 elem -> result (tensor3 elem) * EncoderT;
  Encoder_inference_truncated :
    EncoderT -> tensor3 elem -> result (tensor3 elem) * EncoderT;
  (** [decoder(memory, mel_specs, mask)], [.inference(memory)],
      [.inference_truncated(memory)]; each yields
      (mel outputs, alignments, stop tokens) *)
  Decoder_call : DecoderT -> tensor3 elem -> option (tensor3 elem) -> tensor2 bool ->
                 result (tensor3 elem * tensor3 elem * tensor2 elem) * DecoderT;
  Decoder_inference : DecoderT -> tensor3 elem ->
                 result (tensor3 elem * tensor3 elem * tensor2 elem) * DecoderT;
  Decoder_inference_truncated : DecoderT -> tensor3 elem ->
                 result (tensor3 elem * tensor3 elem * tensor2 elem) * DecoderT;
  (** [self.postnet(x)] *)
  Postnet_call : PostnetT -> tensor3 elem -> result (tensor3 elem) * PostnetT
}.

(** Modelled from the spec: [sequence_mask] of TTS.utils.generic_utils, which
    is not part of the source at hand.  The mask is a boolean matrix with one
    row per batch sample, true at the positions below that sample's valid
    length and false otherwise.  [forward] calls it on the lengths alone, so
    its width is the longest length of the batch. *)
Definition sequence_mask (sequence_length : list Z) : tensor2 bool :=
  let max_len := fold_right Z.max 0%Z sequence_length in
  T2 (length sequence_length) (Z.to_nat max_len)
     (fun b i => (Z.of_nat i <? nth b sequence_length 0%Z)%Z).

(** ** torch.nn.Embedding *)

Section EmbeddingLayer.
Context {elem : Type} (ezero : elem).

Record Embedding : Type :=
  { weight : tensor2 elem; padding_idx : option nat }.

(** [nn.Embedding(num_embeddings, embedding_dim, padding_idx=p)]: the
    weight is drawn ([init]), then the padding row is filled with zeros. *)
Definition Embedding_new (num_embeddings embedding_dim : Z) (p : option nat)
    (init : nat -> nat -> elem) : result Embedding :=
  if ((num_embeddings <? 0) || (embedding_dim <? 0))%Z
  then Raise (RuntimeError "Trying to create tensor with negative dimension")
  else
    match p with
    | None =>
        Ok {| weight := T2 (Z.to_nat num_embeddings) (Z.to_nat embedding_dim) init;
              padding_idx := None |}
    | Some k =>
        if k <? Z.to_nat num_embeddings
        then Ok {| weight := T2 (Z.to_nat num_embeddings) (Z.to_nat embedding_dim)
                                (fun i j => if i =? k then ezero else init i j);
                   padding_idx := Some k |}
        else Raise (IndexError "index out of bounds for dimension 0")
    end.

(** [nn.Embedding.from_pretrained(torch.FloatTensor(w))] *)
Definition Embedding_from_pretrained (w : tensor2 elem) : Embedding :=
  {| weight := w; padding_idx := None |}.

(** [e.weight.data.uniform_(-val, val)] and [e.weight.data.normal_(0, s)]
    overwrite every entry of the weight in place with a fresh draw.
    [draw i j] is the value the generator yields for entry (i, j); the
    bounds of the distribution are floats and are not represented. *)
Definition fill_ (draw : nat -> nat -> elem) (e : Embedding) : Embedding :=
  {| weight := T2 (rows (weight e)) (cols (weight e)) draw;
     padding_idx := padding_idx e |}.

Definition index_ok (e : Embedding) (i : Z) : bool :=
  ((0 <=? i) && (i <? Z.of_nat (rows (weight e))))%Z.

(** The lookup on a (batch, time) matrix of ids.  It reads the weight row
    of each id; [padding_idx] plays no part in it. *)
Definition Embedding_call (e : Embedding) (ids : tensor2 Z) : result (tensor3 elem) :=
  if forallb (fun b => forallb (fun t => index_ok e (at2 ids b t)) (seq 0 (cols ids)))
             (seq 0 (rows ids))
  then Ok (T3 (rows ids) (cols ids) (cols (weight e))
             (fun b t j => at2 (weight e) (Z.to_nat (at2 ids b t)) j))
  else Raise (IndexError "index out of range in self").

(** The lookup on a vector of ids. *)
Definition Embedding_call1 (e : Embedding) (ids : list Z) : result (tensor2 elem) :=
  if forallb (index_ok e) ids
  then Ok (T2 (length ids) (cols (weight e))
             (fun b j => at2 (weight e) (Z.to_nat (nth b ids 0%Z)) j))
  else Raise (IndexError "index out of range in self").
End EmbeddingLayer.

Arguments Embedding elem : clear implicits.

(** ** The model object and the state of a call *)

(** References to [Decoder] modules. *)
Abbreviation loc := nat.

Section Model.
Context {elem : Type} `{L : Layers elem}.

(** The attributes of a [Tacotron2] object.  [speaker_embedding] is [None]
    when the object has no such attribute; [speaker_embeddings] is the
    cached speaker vector, [None] when it holds Python's [None] (or was not
    assigned yet: it is read only after an assignment).  [encoder] and
    [postnet] are held by this one attribute each and are stored in place;
    decoders are referenced. *)
Record Tacotron2 : Type := {
  postnet_output_dim : Z;
  decoder_output_dim : Z;
  num_speakers : Z;
  n_frames_per_step : Z;
  bidirectional_decoder : bool;
  embedding : Embedding elem;
  speaker_embedding : option (Embedding elem);
  speaker_embeddings : option (tensor3 elem);
  encoder : EncoderT;
  decoder : loc;
  decoder_backward : option loc;
  postnet : PostnetT }.

Record World : Type := { self : Tacotron2; heap : gmap loc DecoderT }.

Definition set_speaker_embeddings (v : option (tensor3 elem)) (m : Tacotron2) : Tacotron2 :=
  {| postnet_output_dim := postnet_output_dim m;
     decoder_output_dim := decoder_output_dim m;
     num_speakers := num_speakers m;
     n_frames_per_step := n_frames_per_step m;
     bidirectional_decoder := bidirectional_decoder m;
     embedding := embedding m;
     speaker_embedding := speaker_embedding m;
     speaker_embeddings := v;
     encoder := encoder m;
     decoder := decoder m;
     decoder_backward := decoder_backward m;
     postnet := postnet m |}.

Definition set_encoder (e : EncoderT) (m : Tacotron2) : Tacotron2 :=
  {| postnet_output_dim := postnet_output_dim m;
     decoder_output_dim := decoder_output_dim m;
     num_speakers := num_speakers m;
     n_frames_per_step := n_frames_per_step m;
     bidirectional_decoder := bidirectional_decoder m;
     embedding := embedding m;
     speaker_embedding := speaker_embedding m;
     speaker_embeddings := speaker_embeddings m;
     encoder := e;
     decoder := decoder m;
     decoder_backward := decoder_backward m;
     postnet := postnet m |}.

Definition set_postnet (p : PostnetT) (m : Tacotron2) : Tacotron2 :=
  {| postnet_output_dim := postnet_output_dim m;
     decoder_output_dim := decoder_output_dim m;
     num_speakers := num_speakers m;
     n_frames_per_step := n_frames_per_step m;
     bidirectional_decoder := bidirectional_decoder m;
     embedding := embedding m;
     speaker_embedding := speaker_embedding m;
     speaker_embeddings := speaker_embeddings m;
     encoder := encoder m;
     decoder := decoder m;
     decoder_backward := decoder_backward m;
     postnet := p |}.

(** *** The monad of a method call: state and exceptions

    A raised exception leaves the state as it was when it was raised. *)

Definition M (A : Type) : Type := World -> result A * World.

Definition ret {A} (a : A) : M A := fun w => (Ok a, w).
Definition raise {A} (e : exn) : M A := fun w => (Raise e, w).
Definition lift {A} (r : result A) : M A := fun w => (r, w).
Definition bind {A B} (c : M A) (k : A -> M B) : M B :=
  fun w => match c w with
           | (Ok a, w') => k a w'
           | (Raise e, w') => (Raise e, w')
           end.

Definition get_self : M Tacotron2 := fun w => (Ok (self w), w).
Definition modify_self (f : Tacotron2 -> Tacotron2) : M unit :=
  fun w => (Ok tt, {| self := f (self w); heap := heap w |}).

(** Running a method of the module referenced by [l]; the module is left as
    the method leaves it.  (An attribute always references a module: the
    last case does not arise on a state built by the constructor.) *)
Definition with_decoder {A} (l : loc) (f : DecoderT -> result A * DecoderT) : M A :=
  fun w => match heap w !! l with
           | Some d => let '(r, d') := f d in
                       (r, {| self := self w; heap := <[l := d']> (heap w) |})
           | None => (Raise (Exn "ReferenceError" "no module at this reference"), w)
           end.

Definition run_encoder (f : EncoderT -> result (tensor3 elem) * EncoderT) : M (tensor3 elem) :=
  fun w => let '(r, e') := f (encoder (self w)) in
           (r, {| self := set_encoder e' (self w); heap := heap w |}).

Definition run_postnet (f : PostnetT -> result (tensor3 elem) * PostnetT) : M (tensor3 elem) :=
  fun w => let '(r, p') := f (postnet (self w)) in
           (r, {| self := set_postnet p' (self w); heap := heap w |}).
End Model.

Declare Scope call_scope.
Delimit Scope call_scope with call.
Notation "'let*' x ':=' c 'in' k" := (bind c (fun x => k))
  (at level 10, x pattern, c at level 100, k at level 200) : call_scope.
Notation "c '>>' k" := (bind c (fun _ => k))
  (at level 100, k at level 200, right associativity) : call_scope.

(** ** The methods of [Tacotron2] *)

Section Methods.
Context {elem : Type} (ezero : elem) (eadd : elem -> elem -> elem).
Context `{L : Layers elem}.
Local Open Scope call_scope.

Abbreviation tensor := (tensor3 elem).

Definition _init_states : M unit :=
  modify_self (set_speaker_embeddings None).

Definition hasattr_speaker_embedding (m : Tacotron2) : bool :=
  match speaker_embedding m with Some _ => true | None => false end.

Definition is_None {A} (o : option A) : bool :=
  match o with None => true | Some _ => false end.

Definition no_speaker_id : exn :=
  RuntimeError " [!] Model has speaker embedding layer but speaker_id is not provided".

Definition _compute_speaker_embedding (speaker_ids : option (list Z)) : M tensor :=
  let* m := get_self in
  match speaker_embedding m with
  | None => raise (AttributeError "'Tacotron2' object has no attribute 'speaker_embedding'")
  | Some layer =>
      match speaker_ids with
      | None => raise (TypeError "embedding(): argument 'indices' must be Tensor, not NoneType")
      | Some ids =>
          let* speaker_embeddings := lift (Embedding_call1 layer ids) in
          ret (unsqueeze1 speaker_embeddings)
      end
  end.

Definition compute_speaker_embedding (speaker_ids : option (list Z)) : M unit :=
  let* m := get_self in
  (if hasattr_speaker_embedding m && is_None speaker_ids
   then raise no_speaker_id else ret tt) >>
  let* m := get_self in
  if hasattr_speaker_embedding m && negb (is_None speaker_ids)
  then let* v := _compute_speaker_embedding speaker_ids in
       modify_self (set_speaker_embeddings (Some v))
  else ret tt.

(** The two fusion helpers.  [speaker_embeddings] is the cached attribute,
    which may hold [None]. *)
Definition none_has_no_expand : exn :=
  AttributeError "'NoneType' object has no attribute 'expand'".

Definition _add_speaker_embedding (outputs : tensor) (speaker_embeddings : option tensor)
  : result tensor :=
  match speaker_embeddings with
  | None => Raise none_has_no_expand
  | Some s =>
      match expand s (size0 outputs) (size1 outputs) with
      | Raise e => Raise e
      | Ok speaker_embeddings_ => add3 eadd outputs speaker_embeddings_
      end
  end.

Definition _concat_speaker_embedding (outputs : tensor) (speaker_embeddings : option tensor)
  : result tensor :=
  match speaker_embeddings with
  | None => Raise none_has_no_expand
  | Some s =>
      match expand s (size0 outputs) (size1 outputs) with
      | Raise e => Raise e
      | Ok speaker_embeddings_ => cat_last outputs speaker_embeddings_
      end
  end.

Definition shape_outputs (mel_outputs mel_outputs_postnet alignments : tensor)
  : tensor * tensor * tensor :=
  let mel_outputs := transpose12 mel_outputs in
  let mel_outputs_postnet := transpose12 mel_outputs_postnet in
  (mel_outputs, mel_outputs_postnet, alignments).

(** [torch.flip(mel_specs, dims=(1,))]; [mel_specs] defaults to [None]. *)
Definition torch_flip1 (mel_specs : option tensor) : result tensor :=
  match mel_specs with
  | None => Raise (TypeError "flip(): argument 'input' must be Tensor, not NoneType")
  | Some t => Ok (flip1 t)
  end.

Definition _backward_inference (mel_specs : option tensor) (encoder_outputs : tensor)
    (mask : tensor2 bool) : M (tensor * tensor) :=
  let* m := get_self in
  match decoder_backward m with
  | None => raise (AttributeError "'Tacotron2' object has no attribute 'decoder_backward'")
  | Some lb =>
      let* flipped := lift (torch_flip1 mel_specs) in
      let* (decoder_outputs_b, alignments_b, _) :=
        with_decoder lb (fun d => Decoder_call d encoder_outputs (Some flipped) mask) in
      let decoder_outputs_b := transpose12 decoder_outputs_b in
      ret (decoder_outputs_b, alignments_b)
  end.

(** What [forward] returns: four outputs, or six with the backward pair. *)
Inductive forward_result : Type :=
| Out4 (decoder_outputs postnet_outputs alignments : tensor) (stop_tokens : tensor2 elem)
| Out6 (decoder_outputs postnet_outputs alignments : tensor) (stop_tokens : tensor2 elem)
       (decoder_outputs_backward alignments_backward : tensor).

(** The cached vector is fused into the encoder output when the model has
    more than one speaker. *)
Definition fuse_speaker (encoder_outputs : tensor) : M tensor :=
  let* m := get_self in
  if (1 <? num_speakers m)%Z
  then lift (_concat_speaker_embedding encoder_outputs (speaker_embeddings m))
  else ret encoder_outputs.

Definition forward (characters : tensor2 Z) (text_lengths : list Z)
    (mel_specs : option tensor) (speaker_ids : option (list Z)) : M forward_result :=
  _init_states >>
  let mask := sequence_mask text_lengths in
  let* m := get_self in
  let* embedded := lift (Embedding_call (embedding m) characters) in
  let embedded_inputs := transpose12 embedded in
  compute_speaker_embedding speaker_ids >>
  let* encoder_outputs :=
    run_encoder (fun e => Encoder_call e embedded_inputs text_lengths) in
  let* encoder_outputs := fuse_speaker encoder_outputs in
  let* m := get_self in
  let* (decoder_outputs, alignments, stop_tokens) :=
    with_decoder (decoder m) (fun d => Decoder_call d encoder_outputs mel_specs mask) in
  let* postnet_outputs := run_postnet (fun p => Postnet_call p decoder_outputs) in
  let* postnet_outputs := lift (add3 eadd decoder_outputs postnet_outputs) in
  let '(decoder_outputs, postnet_outputs, alignments) :=
    shape_outputs decoder_outputs postnet_outputs alignments in
  let* m := get_self in
  if bidirectional_decoder m
  then let* (decoder_outputs_backward, alignments_backward) :=
         _backward_inference mel_specs encoder_outputs mask in
       ret (Out6 decoder_outputs postnet_outputs alignments stop_tokens
                 decoder_outputs_backward alignments_backward)
  else ret (Out4 decoder_outputs postnet_outputs alignments stop_tokens).

Definition inference (characters : tensor2 Z) (speaker_ids : option (list Z))
  : M (tensor * tensor * tensor * tensor2 elem) :=
  let* m := get_self in
  let* embedded := lift (Embedding_call (embedding m) characters) in
  let embedded_inputs := transpose12 embedded in
  _init_states >>
  compute_speaker_embedding speaker_ids >>
  let* encoder_outputs := run_encoder (fun e => Encoder_inference e embedded_inputs) in
  let* encoder_outputs := fuse_speaker encoder_outputs in
  let* m := get_self in
  let* (mel_outputs, alignments, stop_tokens) :=
    with_decoder (decoder m) (fun d => Decoder_inference d encoder_outputs) in
  let* mel_outputs_postnet := run_postnet (fun p => Postnet_call p mel_outputs) in
  let* mel_outputs_postnet := lift (add3 eadd mel_outputs mel_outputs_postnet) in
  let '(mel_outputs, mel_outputs_postnet, alignments) :=
    shape_outputs mel_outputs mel_outputs_postnet alignments in
  ret (mel_outputs, mel_outputs_postnet, alignments, stop_tokens).

(** *** Names

    A name that a function body reads is looked up among the names the
    function binds, then among the names the module binds at top level (the
    imports and the class); no built-in is called [encoder_output]. *)

(** What a name is bound to: a tensor, or an object of another kind. *)
Inductive pyobj : Type :=
| PyTensor (t : tensor)
| PyOther.

Definition module_globals : list string :=
  ["copy"; "torch"; "sqrt"; "nn"; "Encoder"; "Decoder"; "Postnet";
   "sequence_mask"; "Tacotron2"]%string.

Fixpoint lookup_name (name : string) (bound : list (string * pyobj)) : option pyobj :=
  match bound with
  | [] => None
  | (n, v) :: rest => if String.eqb name n then Some v else lookup_name name rest
  end.

Definition load_name (locals : list (string * pyobj)) (name : string) : M pyobj :=
  match lookup_name name locals with
  | Some v => ret v
  | None =>
      if existsb (String.eqb name) module_globals then ret PyOther
      else raise (NameError (String.append "name '" (String.append name "' is not defined")))
  end.

Definition as_tensor (v : pyobj) : M tensor :=
  match v with
  | PyTensor t => ret t
  | PyOther => raise (TypeError "expected a Tensor")
  end.

(** "Preserve model states for continuous inference" *)
Definition inference_truncated (text : tensor2 Z) (speaker_ids : option (list Z))
  : M (tensor * tensor * tensor * tensor2 elem) :=
  compute_speaker_embedding speaker_ids >>
  let* m := get_self in
  let* embedded := lift (Embedding_call (embedding m) text) in
  let embedded_inputs := transpose12 embedded in
  let* encoder_outputs :=
    run_encoder (fun e => Encoder_inference_truncated e embedded_inputs) in
  let* encoder_outputs := fuse_speaker encoder_outputs in
  let* m := get_self in
  let* encoder_output :=
    load_name [("self", PyOther); ("text", PyOther); ("speaker_ids", PyOther);
               ("embedded_inputs", PyTensor embedded_inputs);
               ("encoder_outputs", PyTensor encoder_outputs)]%string
              "encoder_output" in
  let* encoder_output := as_tensor encoder_output in
  let* (mel_outputs, alignments, stop_tokens) :=
    with_decoder (decoder m) (fun d => Decoder_inference_truncated d encoder_output) in
  let* mel_outputs_postnet := run_postnet (fun p => Postnet_call p mel_outputs) in
  let* mel_outputs_postnet := lift (add3 eadd mel_outputs mel_outputs_postnet) in
  let '(mel_outputs, mel_outputs_postnet, alignments) :=
    shape_outputs mel_outputs mel_outputs_postnet alignments in
  ret (mel_outputs, mel_outputs_postnet, alignments, stop_tokens).

(** *** Construction *)

(** The keyword arguments of the constructor. *)
Record Keywords : Type := {
  kw_speaker_embedding_dim : Z;
  kw_speaker_embedding_weights : option (tensor2 elem);
  kw_postnet_output_dim : Z;
  kw_decoder_output_dim : Z;
  kw_attn_type : string;
  kw_attn_win : bool;
  kw_attn_norm : string;
  kw_prenet_type : string;
  kw_prenet_dropout : bool;
  kw_forward_attn : bool;
  kw_trans_agent : bool;
  kw_forward_attn_mask : bool;
  kw_location_attn : bool;
  kw_attn_K : Z;
  kw_separate_stopnet : bool;
  kw_bidirectional_decoder : bool }.

Definition default_keywords : Keywords :=
  {| kw_speaker_embedding_dim := 512;
     kw_speaker_embedding_weights := None;
     kw_postnet_output_dim := 80;
     kw_decoder_output_dim := 80;
     kw_attn_type := "original";
     kw_attn_win := false;
     kw_attn_norm := "softmax";
     kw_prenet_type := "original";
     kw_prenet_dropout := true;
     kw_forward_attn := false;
     kw_trans_agent := false;
     kw_forward_attn_mask := false;
     kw_location_attn := true;
     kw_attn_K := 5;
     kw_separate_stopnet := true;
     kw_bidirectional_decoder := false |}.

(** What the random generator yields while the two embedding tables are
    built: the draws of [nn.Embedding]'s own initialisation and those of the
    [uniform_] and [normal_] calls that follow. *)
Record Draws : Type := {
  embedding_init : nat -> nat -> elem;
  embedding_uniform : nat -> nat -> elem;
  speaker_init : nat -> nat -> elem;
  speaker_normal : nat -> nat -> elem }.

(** [if speaker_embedding_weights:] holds for a list with a row. *)
Definition truthy (w : option (tensor2 elem)) : bool :=
  match w with Some t => negb (rows t =? 0) | None => false end.

(** [copy.deepcopy(self.decoder)]: a new module, at a new reference, with
    the content of the module at [l]. *)
Definition deepcopy (l : loc) (h : gmap loc DecoderT) : result (loc * gmap loc DecoderT) :=
  match h !! l with
  | Some d => let l' := fresh (dom h) in Ok (l', <[l' := d]> h)
  | None => Raise (Exn "ReferenceError" "no module at this reference")
  end.

Definition rbind {A B} (r : result A) (k : A -> result B) : result B :=
  match r with Ok a => k a | Raise e => Raise e end.

Definition __init__ (num_chars num_speakers r : Z) (kw : Keywords) (rng : Draws)
    (h : gmap loc DecoderT) : result World :=
  let decoder_dim :=
    (if 1 <? num_speakers then 512 + kw_speaker_embedding_dim kw else 512)%Z in
  let encoder_dim := (if 1 <? num_speakers then 512 else 512)%Z in
  let proj_speaker_dim := (if 1 <? num_speakers then 80 else 0)%Z in
  (* embedding layer *)
  rbind (Embedding_new ezero num_chars 512 (Some 0) (embedding_init rng)) (fun emb =>
  let emb := fill_ (embedding_uniform rng) emb in
  rbind (if (1 <? num_speakers)%Z
         then if truthy (kw_speaker_embedding_weights kw)
              then match kw_speaker_embedding_weights kw with
                   | Some w => Ok (Some (Embedding_from_pretrained w))
                   | None => Ok None
                   end
              else rbind (Embedding_new ezero num_speakers (kw_speaker_embedding_dim kw)
                                        None (speaker_init rng))
                         (fun e => Ok (Some (fill_ (speaker_normal rng) e)))
         else Ok None) (fun spk =>
  rbind (Encoder encoder_dim) (fun enc =>
  rbind (Decoder decoder_dim (kw_decoder_output_dim kw) r (kw_attn_type kw) (kw_attn_win kw)
                 (kw_attn_norm kw) (kw_prenet_type kw) (kw_prenet_dropout kw)
                 (kw_forward_attn kw) (kw_trans_agent kw) (kw_forward_attn_mask kw)
                 (kw_location_attn kw) (kw_attn_K kw) (kw_separate_stopnet kw)) (fun dec =>
  let ld := fresh (dom h) in
  let h := <[ld := dec]> h in
  rbind (if kw_bidirectional_decoder kw
         then rbind (deepcopy ld h) (fun '(lb, h') => Ok (Some lb, h'))
         else Ok (None, h)) (fun '(back, h) =>
  rbind (Postnet (kw_postnet_output_dim kw)) (fun post =>
  Ok {| self := {| postnet_output_dim := kw_postnet_output_dim kw;
                   decoder_output_dim := kw_decoder_output_dim kw;
                   num_speakers := num_speakers;
                   n_frames_per_step := r;
                   bidirectional_decoder := kw_bidirectional_decoder kw;
                   embedding := emb;
                   speaker_embedding := spk;
                   speaker_embeddings := None;
                   encoder := enc;
                   decoder := ld;
                   decoder_backward := back;
                   postnet := post |};
        heap := h |})))))).
End Methods.

(** ** Vocabulary of the properties *)

Section Vocabulary.
Context {elem : Type} `{L : Layers elem}.

(** The attributes that only the constructor assigns. *)
Definition attrs (m : Tacotron2)
  : Z * bool * Embedding elem * option (Embedding elem) * loc * option loc :=
  (num_speakers m, bidirectional_decoder m, embedding m, speaker_embedding m,
   decoder m, decoder_backward m).

(** Two observations of a state: the constructor-assigned attributes of
    [self], and the module at a reference. *)
Definition attrs_of (w : World) := attrs (self w).
Definition cell (l : loc) (w : World) : option DecoderT := heap w !! l.

(** A call that leaves an observation of the state as it is, whether it
    returns or raises. *)
Definition keeps {X A} (obs : World -> X) (c : M A) : Prop :=
  forall w, obs (snd (c w)) = obs w.

(** The speaker layer exists exactly when the model has several speakers:
    what the constructor establishes. *)
Definition wf (w : World) : Prop :=
  hasattr_speaker_embedding (self w) = (1 <? num_speakers (self w))%Z.

(** Two states that differ at most in the module at reference [lb]. *)
Definition apart (lb : loc) (w v : World) : Prop :=
  self w = self v /\ forall l, l <> lb -> heap w !! l = heap v !! l.

(** The name that [inference_truncated] reads and nothing binds. *)
Definition undefined_encoder_output : exn :=
  NameError "name 'encoder_output' is not defined".

(** [fused] is [enc] with the speaker vector of each sample appended to the
    features at every time position. *)
Definition concat_layout (enc s fused : tensor3 elem) : Prop :=
  size0 fused = size0 enc /\ size1 fused = size1 enc
  /\ size2 fused = size2 enc + size2 s
  /\ forall b t k,
       at3 fused b t k =
         if k <? size2 enc then at3 enc b t k
         else at3 s (if size0 s =? 1 then 0 else b) 0 (k - size2 enc).

(** A call whose outcome and whose effect are the same from related states. *)
Definition respects (R : World -> World -> Prop) {A} (c : M A) : Prop :=
  forall w v, R w v -> fst (c w) = fst (c v) /\ R (snd (c w)) (snd (c v)).

(** The state with another value in the speaker cache. *)
Definition with_cache (c : option (tensor3 elem)) (w : World) : World :=
  {| self := set_speaker_embeddings c (self w); heap := heap w |}.

(** The state with the module at [l] replaced (a parameter update made by
    the training framework). *)
Definition with_module (l : loc) (d : DecoderT) (w : World) : World :=
  {| self := self w; heap := <[l := d]> (heap w) |}.

(** The four outputs of the forward path. *)
Definition forward_outputs (out : forward_result)
  : tensor3 elem * tensor3 elem * tensor3 elem * tensor2 elem :=
  match out with
  | Out4 a b c d => (a, b, c, d)
  | Out6 a b c d _ _ => (a, b, c, d)
  end.

(** The backward pair, when there is one. *)
Definition backward_outputs (out : forward_result)
  : option (tensor3 elem * tensor3 elem) :=
  match out with
  | Out4 _ _ _ _ => None
  | Out6 _ _ _ _ e f => Some (e, f)
  end.



End Vocabulary.

Arguments forward_result elem : clear implicits.
Arguments Keywords elem : clear implicits.
Arguments Draws elem : clear implicits.
Arguments pyobj elem : clear implicits.

(** ** A small instance, for evaluation

    Rational elements and collaborators that can be run: the encoder moves
    the time axis of its input in front of the feature axis and counts its
    calls, the decoder has one parameter, which it adds to what it emits,
    and the postnet scales its input by its parameter. *)

Module Small.

Definition decoder_call (d : Q) (memory : tensor3 Q) (mel_specs : option (tensor3 Q))
    (mask : tensor2 bool)
  : result (tensor3 Q * tensor3 Q * tensor2 Q) * Q :=
  match mel_specs with
  | None => (Raise (TypeError "teacher forcing needs the target frames"), d)
  | Some t =>
      (Ok (T3 (size0 t) (size2 t) (size1 t)
              (fun b c i => d + at3 t b i c + at3 memory b 0 (size2 memory - 1))%Q,
           T3 (size0 t) (size1 t) (size1 memory) (fun _ _ _ => 1%Q),
           T2 (size0 t) (size1 t) (fun _ _ => d)), d)
  end.

Definition decoder_inference (d : Q) (memory : tensor3 Q)
  : result (tensor3 Q * tensor3 Q * tensor2 Q) * Q :=
  (Ok (T3 (size0 memory) 80 (size1 memory)
          (fun b c i => d + at3 memory b i (size2 memory - 1))%Q,
       T3 (size0 memory) (size1 memory) (size1 memory) (fun _ _ _ => 1%Q),
       T2 (size0 memory) (size1 memory) (fun _ _ => d)), d).

#[export] Instance layers : Layers Q := {|
  EncoderT := nat;
  DecoderT := Q;
  PostnetT := Q;
  Encoder := fun _ => Ok 0;
  Decoder := fun _ _ _ _ _ _ _ _ _ _ _ _ _ _ => Ok (1 # 4)%Q;
  Postnet := fun _ => Ok (1 # 2)%Q;
  Encoder_call := fun n x _ => (Ok (transpose12 x), S n);
  Encoder_inference := fun n x => (Ok (transpose12 x), S n);
  Encoder_inference_truncated := fun n x => (Ok (transpose12 x), S n);
  Decoder_call := decoder_call;
  Decoder_inference := decoder_inference;
  Decoder_inference_truncated := decoder_inference;
  Postnet_call := fun p x =>
    (Ok (T3 (size0 x) (size1 x) (size2 x) (fun b i j => p * at3 x b i j)%Q), p)
|}.

Definition draws : Draws Q :=
  {| embedding_init := fun _ _ => (1 # 32)%Q;
     embedding_uniform := fun _ _ => (1 # 16)%Q;
     speaker_init := fun _ _ => (1 # 8)%Q;
     speaker_normal := fun i _ => (Z.of_nat (S i) # 10)%Q |}.

Definition bidirectional : Keywords Q :=
  {| kw_speaker_embedding_dim := 512;
     kw_speaker_embedding_weights := None;
     kw_postnet_output_dim := 80;
     kw_decoder_output_dim := 80;
     kw_attn_type := "original";
     kw_attn_win := false;
     kw_attn_norm := "softmax";
     kw_prenet_type := "original";
     kw_prenet_dropout := true;
     kw_forward_attn := false;
     kw_trans_agent := false;
     kw_forward_attn_mask := false;
     kw_location_attn := true;
     kw_attn_K := 5;
     kw_separate_stopnet := true;
     kw_bidirectional_decoder := true |}.

(** The token sequence [4, 7, 9, 2], one sample. *)
Definition tokens : tensor2 Z :=
  T2 1 4 (fun _ t => nth t [4; 7; 9; 2]%Z 0%Z).

(** Two target frames of 80 channels. *)
Definition target : tensor3 Q :=
  T3 1 2 80 (fun _ i c => (Z.of_nat (i + c) # 100)%Q).

(** The single-speaker model that the constructor builds for a vocabulary
    of 50 symbols, and the two-speaker model with a backward decoder. *)
Definition single : World :=
  {| self := {| postnet_output_dim := 80;
                decoder_output_dim := 80;
                num_speakers := 1;
                n_frames_per_step := 1;
                bidirectional_decoder := false;
                embedding := {| weight := T2 50 512 (fun _ _ => (1 # 16)%Q);
                                padding_idx := Some 0 |};
                speaker_embedding := None;
                speaker_embeddings := None;
                encoder := 0;
                decoder := 0;
                decoder_backward := None;
                postnet := (1 # 2)%Q |};
     heap := <[0 := (1 # 4)%Q]> ∅ |}.

Definition multi : World :=
  {| self := {| postnet_output_dim := 80;
                decoder_output_dim := 80;
                num_speakers := 2;
                n_frames_per_step := 1;
                bidirectional_decoder := true;
                embedding := {| weight := T2 50 512 (fun _ _ => (1 # 16)%Q);
                                padding_idx := Some 0 |};
                speaker_embedding :=
                  Some {| weight := T2 2 512 (fun i _ => (Z.of_nat (S i) # 10)%Q);
                          padding_idx := None |};
                speaker_embeddings := None;
                encoder := 0;
                decoder := 0;
                decoder_backward := Some 1;
                postnet := (1 # 2)%Q |};
     heap := <[1 := (1 # 4)%Q]> (<[0 := (1 # 4)%Q]> ∅) |}.

(** A speaker vector left in the cache by an earlier call. *)
Definition earlier_vector : tensor3 Q := T3 1 1 512 (fun _ _ _ => (7 # 10)%Q).

(** Keyword arguments with pretrained speaker weights: two speakers, three
    features each, while [speaker_embedding_dim] keeps its default 512. *)
Definition pretrained : Keywords Q :=
  {| kw_speaker_embedding_dim := 512;
     kw_speaker_embedding_weights := Some (T2 2 3 (fun i j => (Z.of_nat (i + j) # 4)%Q));
     kw_postnet_output_dim := 80;
     kw_decoder_output_dim := 80;
     kw_attn_type := "original";
     kw_attn_win := false;
     kw_attn_norm := "softmax";
     kw_prenet_type := "original";
     kw_prenet_dropout := true;
     kw_forward_attn := false;
     kw_trans_agent := false;
     kw_forward_attn_mask := false;
     kw_location_attn := true;
     kw_attn_K := 5;
     kw_separate_stopnet := true;
     kw_bidirectional_decoder := false |}.

(** The two-speaker model that the constructor builds from them. *)
Definition from_pretrained : World :=
  {| self := {| postnet_output_dim := 80;
                decoder_output_dim := 80;
                num_speakers := 2;
                n_frames_per_step := 1;
                bidirectional_decoder := false;
                embedding := {| weight := T2 50 512 (fun _ _ => (1 # 16)%Q);
                                padding_idx := Some 0 |};
                speaker_embedding :=
                  Some {| weight := T2 2 3 (fun i j => (Z.of_nat (i + j) # 4)%Q);
                          padding_idx := None |};
                speaker_embeddings := None;
                encoder := 0;
                decoder := 0;
                decoder_backward := None;
                postnet := (1 # 2)%Q |};
     heap := <[0 := (1 # 4)%Q]> ∅ |}.

(** A speaker vector to add: one sample, one time position, 80 features. *)
Definition added_vector : tensor3 Q := T3 1 1 80 (fun _ _ k => (Z.of_nat k # 7)%Q).

End Small.

(** ** Facts about the monad *)

Section MonadFacts.
Context {elem : Type} `{L : Layers elem}.
Local Open Scope call_scope.

Lemma bind_ok {A B} (c : M A) (k : A -> M B) w b w' :
  bind c k w = (Ok b, w') ->
  exists a w1, c w = (Ok a, w1) /\ k a w1 = (Ok b, w').
Proof.
  unfold bind. destruct (c w) as [[a|e] w1]; intros H.
  - exists a, w1. split; [reflexivity | exact H].
  - discriminate H.
Qed.


Lemma bind_step {A B} (c : M A) (k : A -> M B) w a w1 :
  c w = (Ok a, w1) -> bind c k w = k a w1.
Proof. intros H. unfold bind. rewrite H. reflexivity. Qed.

Lemma bind_stop {A B} (c : M A) (k : A -> M B) w e w1 :
  c w = (Raise e, w1) -> bind c k w = (Raise e, w1).
Proof. intros H. unfold bind. rewrite H. reflexivity. Qed.

(** Two sequences agree from [w] when their first steps do and their
    continuations agree on what the first step returns. *)
Lemma bind_cong {A B} (c c' : M A) (k k' : A -> M B) w :
  c w = c' w ->
  (forall a w1, c w = (Ok a, w1) -> k a w1 = k' a w1) ->
  bind c k w = bind c' k' w.
Proof.
  intros Hc Hk. unfold bind. rewrite <- Hc.
  destruct (c w) as [[a|e] w1]; [ apply Hk | ]; reflexivity.
Qed.

(** *** Observations that calls leave alone *)

Lemma keeps_run {X A} (obs : World -> X) (c : M A) w r w' :
  keeps obs c -> c w = (r, w') -> obs w' = obs w.
Proof. intros Hk Hc. specialize (Hk w). rewrite Hc in Hk. exact Hk. Qed.

Lemma keeps_ret {X A} (obs : World -> X) (a : A) : keeps obs (ret a).
Proof. intros w. reflexivity. Qed.

Lemma keeps_raise {X A} (obs : World -> X) (e : exn) : keeps obs (raise (A := A) e).
Proof. intros w. reflexivity. Qed.

Lemma keeps_lift {X A} (obs : World -> X) (r : result A) : keeps obs (lift r).
Proof. intros w. reflexivity. Qed.

Lemma keeps_get_self {X} (obs : World -> X) : keeps obs get_self.
Proof. intros w. reflexivity. Qed.

Lemma keeps_bind {X A B} (obs : World -> X) (c : M A) (k : A -> M B) :
  keeps obs c -> (forall a, keeps obs (k a)) -> keeps obs (bind c k).
Proof.
  intros Hc Hk w. unfold bind.
  specialize (Hc w). destruct (c w) as [[a|e] w1]; simpl in *.
  - rewrite <- Hc. apply Hk.
  - exact Hc.
Qed.

Lemma keeps_attrs_set_cache v : keeps attrs_of (modify_self (set_speaker_embeddings v)).
Proof. intros w. reflexivity. Qed.

Lemma keeps_attrs_run_encoder f : keeps attrs_of (run_encoder f).
Proof. intros w. unfold run_encoder. destruct (f _). reflexivity. Qed.

Lemma keeps_attrs_run_postnet f : keeps attrs_of (run_postnet f).
Proof. intros w. unfold run_postnet. destruct (f _). reflexivity. Qed.

Lemma keeps_attrs_with_decoder {A} l (f : DecoderT -> result A * DecoderT) :
  keeps attrs_of (with_decoder l f).
Proof.
  intros w. unfold with_decoder.
  destruct (heap w !! l) as [d|]; [destruct (f d) | ]; reflexivity.
Qed.

Lemma keeps_cell_modify_self l f : keeps (cell l) (modify_self f).
Proof. intros w. reflexivity. Qed.

Lemma keeps_cell_run_encoder l f : keeps (cell l) (run_encoder f).
Proof. intros w. unfold run_encoder. destruct (f _). reflexivity. Qed.

Lemma keeps_cell_run_postnet l f : keeps (cell l) (run_postnet f).
Proof. intros w. unfold run_postnet. destruct (f _). reflexivity. Qed.

(** Running the module at [l'] writes to that reference only. *)
Lemma keeps_cell_with_decoder {A} l l' (f : DecoderT -> result A * DecoderT) :
  l' <> l -> keeps (cell l) (with_decoder l' f).
Proof.
  intros Hne w. unfold with_decoder, cell.
  destruct (heap w !! l') as [d|]; [ | reflexivity ].
  destruct (f d) as [r d']. cbn [snd heap].
  apply lookup_insert_ne. exact Hne.
Qed.
End MonadFacts.

Create HintDb frame.
#[export] Hint Resolve keeps_ret keeps_raise keeps_lift keeps_get_self
  keeps_attrs_set_cache keeps_attrs_run_encoder keeps_attrs_run_postnet
  keeps_attrs_with_decoder keeps_cell_modify_self keeps_cell_run_encoder
  keeps_cell_run_postnet keeps_cell_with_decoder : frame.

(** Splits a goal [keeps obs c] along the shape of [c]. *)
Ltac keeps_tac :=
  repeat first
    [ solve [auto with frame]
    | apply keeps_bind; [ | intros ]
    | match goal with
      | |- keeps _ (if ?b then _ else _) => destruct b
      | |- keeps _ (match ?x with _ => _ end) => destruct x
      end ].

Section FrameFacts.
Context {elem : Type} (eadd : elem -> elem -> elem) `{L : Layers elem}.
Local Open Scope call_scope.

Lemma keeps_attrs_init_states : keeps attrs_of _init_states.
Proof. unfold _init_states. keeps_tac. Qed.

Lemma keeps_attrs_compute_speaker_embedding ids :
  keeps attrs_of (compute_speaker_embedding ids).
Proof. unfold compute_speaker_embedding, _compute_speaker_embedding. keeps_tac. Qed.

Lemma keeps_cell_compute_speaker_embedding l ids :
  keeps (cell l) (compute_speaker_embedding ids).
Proof. unfold compute_speaker_embedding, _compute_speaker_embedding. keeps_tac. Qed.

Lemma keeps_attrs_fuse_speaker x : keeps attrs_of (fuse_speaker x).
Proof. unfold fuse_speaker. keeps_tac. Qed.

Lemma keeps_attrs_backward_inference mel x mask :
  keeps attrs_of (_backward_inference mel x mask).
Proof. unfold _backward_inference. keeps_tac. Qed.

Hint Resolve keeps_attrs_init_states keeps_attrs_compute_speaker_embedding
  keeps_attrs_fuse_speaker keeps_attrs_backward_inference : frame.

(** No call reassigns what the constructor assigned. *)
Lemma keeps_attrs_forward ch tl mel ids : keeps attrs_of (forward eadd ch tl mel ids).
Proof. unfold forward, shape_outputs. keeps_tac. Qed.

Lemma keeps_attrs_inference ch ids : keeps attrs_of (inference eadd ch ids).
Proof. unfold inference, shape_outputs. keeps_tac. Qed.

Lemma keeps_attrs_inference_truncated ch ids :
  keeps attrs_of (inference_truncated eadd ch ids).
Proof. unfold inference_truncated, shape_outputs, load_name, as_tensor. keeps_tac. Qed.
End FrameFacts.

(** ** Facts about the tensor operations *)

Section TensorFacts.
Context {A : Type}.
Implicit Types (t a b s : tensor3 A).

Lemma transpose12_involutive t : transpose12 (transpose12 t) = t.
Proof. destruct t. reflexivity. Qed.

Lemma transpose12_at t n i j : at3 (transpose12 t) n i j = at3 t n j i.
Proof. reflexivity. Qed.

Lemma flip1_at t n i j : at3 (flip1 t) n i j = at3 t n (size1 t - 1 - i) j.
Proof. reflexivity. Qed.

(** Flipping the time axis twice gives back every frame. *)
Lemma flip1_flip1_at t n i j :
  i < size1 t -> at3 (flip1 (flip1 t)) n i j = at3 t n i j.
Proof.
  intros Hi. simpl. f_equal. lia.
Qed.

Lemma broadcast_dim_same n : broadcast_dim n n = Some n.
Proof. unfold broadcast_dim. rewrite Nat.eqb_refl. reflexivity. Qed.

Lemma pick_index n k : k < n -> (if n =? 1 then 0 else k) = k.
Proof.
  intros Hk. destruct (Nat.eqb_spec n 1); [lia | reflexivity].
Qed.

(** On tensors of one shape, [+] adds entry by entry. *)
Lemma add3_same_shape eadd a b s :
  add3 eadd a b = Ok s ->
  size0 a = size0 b -> size1 a = size1 b -> size2 a = size2 b ->
  size0 s = size0 a /\ size1 s = size1 a /\ size2 s = size2 a /\
  forall n i j, n < size0 a -> i < size1 a -> j < size2 a ->
    at3 s n i j = eadd (at3 a n i j) (at3 b n i j).
Proof.
  intros H E0 E1 E2. unfold add3 in H.
  rewrite <- E0, <- E1, <- E2, !broadcast_dim_same in H.
  injection H as <-. cbn [size0 size1 size2 at3].
  repeat split. intros n i j Hn Hi Hj.
  rewrite !pick_index by assumption. reflexivity.
Qed.

(** [+] commutes with the exchange of the last two axes. *)
Lemma add3_transpose12 eadd a b s :
  add3 eadd a b = Ok s ->
  add3 eadd (transpose12 a) (transpose12 b) = Ok (transpose12 s).
Proof.
  unfold add3. cbn [transpose12 size0 size1 size2 at3].
  destruct (broadcast_dim (size0 a) (size0 b)); [ | discriminate ].
  destruct (broadcast_dim (size1 a) (size1 b)); [ | discriminate ].
  destruct (broadcast_dim (size2 a) (size2 b)); [ | discriminate ].
  intros H. injection H as <-. reflexivity.
Qed.

Lemma expand_spec t n0 n1 s :
  expand t n0 n1 = Ok s ->
  size0 s = n0 /\ size1 s = n1 /\ size2 s = size2 t /\
  forall n i j, at3 s n i j =
    at3 t (if size0 t =? 1 then 0 else n) (if size1 t =? 1 then 0 else i) j.
Proof.
  unfold expand. destruct (_ && _); [ | discriminate ].
  intros H. injection H as <-. repeat split.
Qed.

Lemma cat_last_spec a b s :
  cat_last a b = Ok s ->
  size0 s = size0 a /\ size1 s = size1 a /\ size2 s = size2 a + size2 b /\
  forall n i j, at3 s n i j =
    if j <? size2 a then at3 a n i j else at3 b n i (j - size2 a).
Proof.
  unfold cat_last. destruct (_ && _); [ | discriminate ].
  intros H. injection H as <-. repeat split.
Qed.

Lemma broadcast_dim_not_sum m n k :
  0 < n -> broadcast_dim m n = Some k -> k <> m + n.
Proof.
  unfold broadcast_dim. intros Hn.
  destruct (Nat.eqb_spec m n); [ intros [= <-]; lia | ].
  destruct (Nat.eqb_spec m 1); [ intros [= <-]; lia | ].
  destruct (Nat.eqb_spec n 1); [ intros [= <-]; lia | discriminate ].
Qed.
End TensorFacts.

(** ** Facts about the calls *)

(** Takes the first step off a hypothesis [bind c k w = (Ok b, w')]. *)
Tactic Notation "bind_inv" hyp(H) "as" ident(a) ident(w) ident(Hc) :=
  apply bind_ok in H as (a & w & Hc & H).

(** A step that reads [self], returns, or lifts a result: its equation
    determines the value and leaves the state. *)
Tactic Notation "read_inv" hyp(H) :=
  first [ unfold get_self in H | unfold ret in H ]; injection H as <- <-.
Tactic Notation "lift_inv" hyp(H) "as" ident(E) :=
  unfold lift in H; injection H as E <-.

Section CallFacts.
Context {elem : Type} (eadd : elem -> elem -> elem) `{L : Layers elem}.
Local Open Scope call_scope.
Implicit Types (w v : World) (ids : option (list Z)).

Lemma init_states_run w : _init_states w = (Ok tt, with_cache None w).
Proof. reflexivity. Qed.

Lemma fuse_speaker_state x w r w' : fuse_speaker x w = (r, w') -> w' = w.
Proof.
  unfold fuse_speaker, bind, get_self, lift, ret.
  destruct (1 <? num_speakers (self w))%Z; intros [= _ <-]; reflexivity.
Qed.

Lemma fuse_speaker_multi x w :
  (1 <? num_speakers (self w))%Z = true ->
  fuse_speaker x w = (_concat_speaker_embedding x (speaker_embeddings (self w)), w).
Proof.
  intros H. unfold fuse_speaker, bind, get_self, lift. rewrite H. reflexivity.
Qed.

Lemma fuse_speaker_single x w :
  (1 <? num_speakers (self w))%Z = false -> fuse_speaker x w = (Ok x, w).
Proof.
  intros H. unfold fuse_speaker, bind, get_self, ret. rewrite H. reflexivity.
Qed.

(** The three cases of [compute_speaker_embedding]. *)
Lemma compute_speaker_embedding_absent w :
  hasattr_speaker_embedding (self w) = true ->
  compute_speaker_embedding None w = (Raise no_speaker_id, w).
Proof.
  intros H. unfold compute_speaker_embedding, bind, get_self.
  rewrite H. reflexivity.
Qed.

Lemma compute_speaker_embedding_single ids w :
  hasattr_speaker_embedding (self w) = false ->
  compute_speaker_embedding ids w = (Ok tt, w).
Proof.
  intros H. unfold compute_speaker_embedding, bind, get_self, ret.
  rewrite H. cbn. rewrite H. reflexivity.
Qed.

Lemma compute_speaker_embedding_given layer l w :
  speaker_embedding (self w) = Some layer ->
  compute_speaker_embedding (Some l) w =
    match Embedding_call1 layer l with
    | Ok sp => (Ok tt, with_cache (Some (unsqueeze1 sp)) w)
    | Raise e => (Raise e, w)
    end.
Proof.
  intros H.
  unfold compute_speaker_embedding, bind, get_self, hasattr_speaker_embedding.
  rewrite H. unfold _compute_speaker_embedding, bind, get_self.
  cbv beta iota delta [is_None negb andb ret lift modify_self with_cache].
  repeat (rewrite H; cbv beta iota).
  destruct (Embedding_call1 layer l); reflexivity.
Qed.

Lemma attrs_fields w w' :
  attrs_of w' = attrs_of w ->
  num_speakers (self w') = num_speakers (self w)
  /\ bidirectional_decoder (self w') = bidirectional_decoder (self w)
  /\ embedding (self w') = embedding (self w)
  /\ speaker_embedding (self w') = speaker_embedding (self w)
  /\ decoder (self w') = decoder (self w)
  /\ decoder_backward (self w') = decoder_backward (self w).
Proof.
  unfold attrs_of, attrs. intros [= -> -> -> -> -> ->]. repeat split.
Qed.

(** The steps of a [forward] call that returns. *)
Lemma forward_inv ch tl mel ids w out w' :
  forward eadd ch tl mel ids w = (Ok out, w') ->
  exists embedded w1 enc w2 fused raw al st w3 pn w4 sum,
    Embedding_call (embedding (self w)) ch = Ok embedded
    /\ compute_speaker_embedding ids (with_cache None w) = (Ok tt, w1)
    /\ run_encoder (fun e => Encoder_call e (transpose12 embedded) tl) w1 = (Ok enc, w2)
    /\ fuse_speaker enc w2 = (Ok fused, w2)
    /\ with_decoder (decoder (self w))
         (fun d => Decoder_call d fused mel (sequence_mask tl)) w2 = (Ok (raw, al, st), w3)
    /\ run_postnet (fun p => Postnet_call p raw) w3 = (Ok pn, w4)
    /\ add3 eadd raw pn = Ok sum
    /\ attrs_of w2 = attrs_of w
    /\ attrs_of w4 = attrs_of w
    /\ if bidirectional_decoder (self w)
       then exists dob ab,
              _backward_inference mel fused (sequence_mask tl) w4 = (Ok (dob, ab), w')
              /\ out = Out6 (transpose12 raw) (transpose12 sum) al st dob ab
       else out = Out4 (transpose12 raw) (transpose12 sum) al st /\ w' = w4.
Proof.
  intros H. unfold forward in H.
  bind_inv H as u w0 H0. rewrite init_states_run in H0. injection H0 as _ <-.
  bind_inv H as m w0 H0. read_inv H0.
  bind_inv H as embedded w0 H0. lift_inv H0 as Hemb.
  bind_inv H as u1 w1 Hspk. destruct u1.
  bind_inv H as enc w2 Henc.
  bind_inv H as fused w0 Hfuse.
  pose proof (fuse_speaker_state Hfuse); subst w0.
  bind_inv H as m w0 H0. read_inv H0.
  bind_inv H as r w3 Hdec. destruct r as [[raw al] st].
  bind_inv H as pn w4 Hpost.
  bind_inv H as sum w0 H0. lift_inv H0 as Hsum.
  cbn [shape_outputs] in H.
  bind_inv H as m w0 H0. read_inv H0.
  cbn [with_cache self set_speaker_embeddings embedding] in Hemb.
  assert (A1 : attrs_of w1 = attrs_of w)
    by apply (keeps_run (keeps_attrs_compute_speaker_embedding ids) Hspk).
  assert (A2 : attrs_of w2 = attrs_of w)
    by (rewrite (keeps_run (keeps_attrs_run_encoder _) Henc); exact A1).
  assert (A3 : attrs_of w3 = attrs_of w)
    by (rewrite (keeps_run (keeps_attrs_with_decoder _ _) Hdec); exact A2).
  assert (A4 : attrs_of w4 = attrs_of w)
    by (rewrite (keeps_run (keeps_attrs_run_postnet _) Hpost); exact A3).
  destruct (attrs_fields A2) as (_ & _ & _ & _ & Edec & _).
  destruct (attrs_fields A4) as (_ & Ebi & _).
  rewrite Edec in Hdec. rewrite Ebi in H.
  exists embedded, w1, enc, w2, fused, raw, al, st, w3, pn, w4, sum.
  repeat (split; [assumption | ]).
  destruct (bidirectional_decoder (self w)).
  - bind_inv H as r w0 Hback. destruct r as [dob ab]. read_inv H.
    exists dob, ab. split; [assumption | reflexivity].
  - read_inv H. split; reflexivity.
Qed.

(** The steps of an [inference] call that returns. *)
Lemma inference_inv ch ids w out w' :
  inference eadd ch ids w = (Ok out, w') ->
  exists embedded w1 enc w2 fused raw al st w3 pn sum,
    Embedding_call (embedding (self w)) ch = Ok embedded
    /\ compute_speaker_embedding ids (with_cache None w) = (Ok tt, w1)
    /\ run_encoder (fun e => Encoder_inference e (transpose12 embedded)) w1 = (Ok enc, w2)
    /\ fuse_speaker enc w2 = (Ok fused, w2)
    /\ with_decoder (decoder (self w)) (fun d => Decoder_inference d fused) w2
       = (Ok (raw, al, st), w3)
    /\ run_postnet (fun p => Postnet_call p raw) w3 = (Ok pn, w')
    /\ add3 eadd raw pn = Ok sum
    /\ attrs_of w2 = attrs_of w
    /\ out = (transpose12 raw, transpose12 sum, al, st).
Proof.
  intros H. unfold inference in H.
  bind_inv H as m w0 H0. read_inv H0.
  bind_inv H as embedded w0 H0. lift_inv H0 as Hemb.
  bind_inv H as u w0 H0. rewrite init_states_run in H0. injection H0 as _ <-.
  bind_inv H as u1 w1 Hspk. destruct u1.
  bind_inv H as enc w2 Henc.
  bind_inv H as fused w0 Hfuse.
  pose proof (fuse_speaker_state Hfuse); subst w0.
  bind_inv H as m w0 H0. read_inv H0.
  bind_inv H as r w3 Hdec. destruct r as [[raw al] st].
  bind_inv H as pn w4 Hpost.
  bind_inv H as sum w0 H0. lift_inv H0 as Hsum.
  cbn [shape_outputs] in H. read_inv H.
  assert (A1 : attrs_of w1 = attrs_of w)
    by apply (keeps_run (keeps_attrs_compute_speaker_embedding ids) Hspk).
  assert (A2 : attrs_of w2 = attrs_of w)
    by (rewrite (keeps_run (keeps_attrs_run_encoder _) Henc); exact A1).
  destruct (attrs_fields A2) as (_ & _ & _ & _ & Edec & _).
  rewrite Edec in Hdec.
  exists embedded, w1, enc, w2, fused, raw, al, st, w3, pn, sum.
  repeat (split; [assumption | ]). reflexivity.
Qed.

(** [inference_truncated] is its first four steps followed by the failed
    look-up of [encoder_output]: the decoder call and all that follows it
    are never reached. *)
Lemma inference_truncated_run text ids w :
  inference_truncated eadd text ids w =
    match compute_speaker_embedding ids w with
    | (Raise e, w1) => (Raise e, w1)
    | (Ok _, w1) =>
        match Embedding_call (embedding (self w1)) text with
        | Raise e => (Raise e, w1)
        | Ok embedded =>
            match run_encoder
                    (fun e => Encoder_inference_truncated e (transpose12 embedded)) w1 with
            | (Raise e, w2) => (Raise e, w2)
            | (Ok enc, w2) =>
                match fuse_speaker enc w2 with
                | (Raise e, w3) => (Raise e, w3)
                | (Ok _, w3) => (Raise undefined_encoder_output, w3)
                end
            end
        end
    end.
Proof.
  unfold inference_truncated, bind at 1.
  destruct (compute_speaker_embedding ids w) as [[u|e] w1]; [ | reflexivity ].
  unfold bind at 1, get_self at 1. unfold bind at 1, lift at 1.
  destruct (Embedding_call (embedding (self w1)) text) as [embedded|e]; [ | reflexivity ].
  unfold bind at 1.
  destruct (run_encoder _ w1) as [[enc|e] w2]; [ | reflexivity ].
  unfold bind at 1.
  destruct (fuse_speaker enc w2) as [[fused|e] w3]; [ | reflexivity ].
  reflexivity.
Qed.


(** *** States that differ in one module *)

Lemma respects_ok {A} R (c : M A) w v a w1 a' v1 :
  respects R c -> R w v -> c w = (Ok a, w1) -> c v = (Ok a', v1) ->
  a = a' /\ R w1 v1.
Proof.
  intros Hc HR Hw Hv. destruct (Hc w v HR) as [Hr Hs].
  rewrite Hw, Hv in Hr, Hs. cbn in Hr, Hs.
  split; [congruence | exact Hs].
Qed.

Lemma respects_bind {A B} R (c : M A) (k : A -> M B) :
  respects R c -> (forall a, respects R (k a)) -> respects R (bind c k).
Proof.
  intros Hc Hk w v HR. unfold bind.
  destruct (Hc w v HR) as [Hr Hs].
  destruct (c w) as [[a|e] w1], (c v) as [[a'|e'] v1]; cbn in Hr, Hs;
    try discriminate Hr.
  - injection Hr as <-. apply Hk, Hs.
  - injection Hr as <-. split; [reflexivity | exact Hs].
Qed.

Lemma respects_ret {A} R (a : A) : respects R (ret a).
Proof. intros w v HR. split; [reflexivity | exact HR]. Qed.

Lemma respects_raise {A} R (e : exn) : respects R (raise (A := A) e).
Proof. intros w v HR. split; [reflexivity | exact HR]. Qed.

Lemma respects_lift {A} R (r : result A) : respects R (lift r).
Proof. intros w v HR. split; [reflexivity | exact HR]. Qed.

Lemma apart_get_self lb : respects (apart lb) get_self.
Proof. intros w v HR. split; [cbn; f_equal; apply HR | exact HR]. Qed.

Lemma apart_modify_self lb f : respects (apart lb) (modify_self f).
Proof.
  intros w v [Hs Hh]. split; [reflexivity | ].
  split; cbn; [rewrite Hs; reflexivity | exact Hh].
Qed.

Lemma apart_run_encoder lb f : respects (apart lb) (run_encoder f).
Proof.
  intros w v [Hs Hh]. unfold run_encoder. rewrite Hs.
  destruct (f _) as [r e']. split; [reflexivity | ].
  split; [reflexivity | exact Hh].
Qed.

Lemma apart_run_postnet lb f : respects (apart lb) (run_postnet f).
Proof.
  intros w v [Hs Hh]. unfold run_postnet. rewrite Hs.
  destruct (f _) as [r e']. split; [reflexivity | ].
  split; [reflexivity | exact Hh].
Qed.

(** Running a module other than the one at [lb]. *)
Lemma apart_with_decoder {A} lb l (f : DecoderT -> result A * DecoderT) :
  l <> lb -> respects (apart lb) (with_decoder l f).
Proof.
  intros Hne w v [Hs Hh]. unfold with_decoder.
  rewrite (Hh l Hne).
  destruct (heap v !! l) as [d|].
  - destruct (f d) as [r d']. split; [reflexivity | ].
    split; [exact Hs | ]. intros l' Hl'. cbn [snd heap].
    destruct (decide (l = l')) as [->|Hll].
    + rewrite !lookup_insert_eq. reflexivity.
    + rewrite !lookup_insert_ne by exact Hll. apply Hh, Hl'.
  - split; [reflexivity | ]. split; assumption.
Qed.

Create HintDb rel.
Hint Resolve respects_ret respects_raise respects_lift apart_get_self
  apart_modify_self apart_run_encoder apart_run_postnet apart_with_decoder : rel.

Lemma apart_compute_speaker_embedding lb ids :
  respects (apart lb) (compute_speaker_embedding ids).
Proof.
  unfold compute_speaker_embedding, _compute_speaker_embedding.
  repeat first
    [ solve [auto with rel]
    | apply respects_bind; [ | intros ]
    | match goal with
      | |- respects _ (if ?b then _ else _) => destruct b
      | |- respects _ (match ?x with _ => _ end) => destruct x
      end ].
Qed.

Lemma apart_fuse_speaker lb x : respects (apart lb) (fuse_speaker x).
Proof.
  unfold fuse_speaker.
  apply respects_bind; [ auto with rel | intros m ].
  destruct (1 <? num_speakers m)%Z; auto with rel.
Qed.

Lemma apart_with_cache lb c w v : apart lb w v -> apart lb (with_cache c w) (with_cache c v).
Proof. intros [Hs Hh]. split; cbn; [rewrite Hs; reflexivity | exact Hh]. Qed.

Lemma apart_with_module lb d w : apart lb w (with_module lb d w).
Proof.
  split; [reflexivity | ]. intros l Hl. cbn.
  symmetry. apply lookup_insert_ne. congruence.
Qed.

(** The forward path does not read the module at [lb], unless [lb] is the
    forward decoder. *)
Lemma forward_outputs_apart lb ch tl mel ids w v out1 w1 out2 v1 :
  apart lb w v -> decoder (self w) <> lb ->
  forward eadd ch tl mel ids w = (Ok out1, w1) ->
  forward eadd ch tl mel ids v = (Ok out2, v1) ->
  forward_outputs out1 = forward_outputs out2.
Proof.
  intros HR Hne Hw Hv.
  destruct (forward_inv Hw)
    as (emb & wa & enc & wb & fused & raw & al & st & wc & pn & wd & sum
        & Hemb & Hspk & Henc & Hfuse & Hdec & Hpost & Hsum & _ & _ & Hout).
  destruct (forward_inv Hv)
    as (emb' & va & enc' & vb & fused' & raw' & al' & st' & vc & pn' & vd & sum'
        & Hemb' & Hspk' & Henc' & Hfuse' & Hdec' & Hpost' & Hsum' & _ & _ & Hout').
  pose proof HR as [Hself _]. rewrite <- Hself in Hemb', Hdec', Hout'.
  assert (emb' = emb) by congruence. subst emb'.
  destruct (respects_ok (@apart_compute_speaker_embedding lb ids)
              (@apart_with_cache lb None w v HR) Hspk Hspk') as [_ Ra].
  destruct (respects_ok (@apart_run_encoder lb _) Ra Henc Henc') as [<- Rb].
  destruct (respects_ok (@apart_fuse_speaker lb enc) Rb Hfuse Hfuse') as [<- _].
  destruct (respects_ok (@apart_with_decoder _ lb _ _ Hne) Rb Hdec Hdec') as [E Rc].
  injection E as <- <- <-.
  destruct (respects_ok (@apart_run_postnet lb _) Rc Hpost Hpost') as [<- _].
  assert (sum' = sum) by congruence. subst sum'.
  destruct (bidirectional_decoder (self w)).
  - destruct Hout as (? & ? & _ & ->), Hout' as (? & ? & _ & ->). reflexivity.
  - destruct Hout as [-> _], Hout' as [-> _]. reflexivity.
Qed.
End CallFacts.

(** ** Facts about the constructor *)

Section Construction.
Context {elem : Type} (ezero : elem) `{L : Layers elem}.

Lemma rbind_ok {A B} (r : result A) (k : A -> result B) b :
  rbind r k = Ok b -> exists a, r = Ok a /\ k a = Ok b.
Proof.
  destruct r as [a|e]; cbn; intros H; [ | discriminate H ].
  exists a. split; [reflexivity | exact H].
Qed.

(** The token table as the constructor leaves it: every entry is a draw of
    the [uniform_] call. *)
Lemma token_table_after_fill n_chars init draw e :
  Embedding_new ezero n_chars 512 (Some 0) init = Ok e ->
  (0 < n_chars)%Z
  /\ fill_ draw e = {| weight := T2 (Z.to_nat n_chars) (Z.to_nat 512) draw;
                       padding_idx := Some 0 |}.
Proof.
  unfold Embedding_new.
  destruct ((n_chars <? 0) || (512 <? 0))%Z; [ discriminate | ].
  destruct (Nat.ltb_spec 0 (Z.to_nat n_chars)); [ | discriminate ].
  intros [= <-]. split; [lia | reflexivity].
Qed.

(** A copy is a new reference with the content of the original. *)
Lemma deepcopy_spec l (h : gmap loc DecoderT) lb h' :
  deepcopy l h = Ok (lb, h') ->
  exists d, h !! l = Some d /\ h !! lb = None /\ lb <> l
            /\ h' !! lb = Some d /\ h' !! l = Some d
            /\ h' = <[lb := d]> h.
Proof.
  unfold deepcopy. destruct (h !! l) as [d|] eqn:Hl; [ | discriminate ].
  intros [= <- <-]. exists d.
  assert (Hfresh : h !! fresh (dom h) = None)
    by (apply not_elem_of_dom, is_fresh).
  assert (Hne : fresh (dom h) <> l) by congruence.
  repeat split; try assumption.
  - apply lookup_insert_eq.
  - rewrite lookup_insert_ne by exact Hne. exact Hl.
Qed.

Lemma init_inv n_chars n_speakers r kw rng (h : gmap loc DecoderT) w :
  __init__ ezero n_chars n_speakers r kw rng h = Ok w ->
  num_speakers (self w) = n_speakers
  /\ bidirectional_decoder (self w) = kw_bidirectional_decoder kw
  /\ (0 < n_chars)%Z
  /\ embedding (self w)
     = {| weight := T2 (Z.to_nat n_chars) (Z.to_nat 512) (embedding_uniform rng);
          padding_idx := Some 0 |}
  /\ wf w
  /\ speaker_embeddings (self w) = None
  /\ h !! decoder (self w) = None
  /\ exists d, heap w !! decoder (self w) = Some d
     /\ if kw_bidirectional_decoder kw
        then exists lb, decoder_backward (self w) = Some lb
                        /\ lb <> decoder (self w)
                        /\ h !! lb = None
                        /\ heap w !! lb = Some d
        else decoder_backward (self w) = None.
Proof.
  unfold __init__. intros H.
  apply rbind_ok in H as (emb & Hemb & H).
  apply rbind_ok in H as (spk & Hspk & H).
  apply rbind_ok in H as (enc & Henc & H).
  apply rbind_ok in H as (dec & Hdec & H).
  apply rbind_ok in H as ([back h'] & Hback & H).
  apply rbind_ok in H as (post & Hpost & H).
  injection H as <-. cbn [self heap num_speakers bidirectional_decoder embedding
    speaker_embeddings decoder decoder_backward].
  destruct (token_table_after_fill (embedding_uniform rng) Hemb) as [Hpos Hfill].
  assert (Hfresh : h !! fresh (dom h) = None)
    by (apply not_elem_of_dom, is_fresh).
  repeat (split; [ first [ reflexivity | assumption ] | ]).
  split.
  { (* the speaker layer exists exactly when there are several speakers *)
    unfold wf, hasattr_speaker_embedding. cbn [self speaker_embedding num_speakers].
    destruct (1 <? n_speakers)%Z.
    - unfold truthy in Hspk.
      destruct (kw_speaker_embedding_weights kw) as [t|].
      + destruct (negb (rows t =? 0)).
        * injection Hspk as <-. reflexivity.
        * apply rbind_ok in Hspk as (e & _ & [= <-]). reflexivity.
      + apply rbind_ok in Hspk as (e & _ & [= <-]). reflexivity.
    - injection Hspk as <-. reflexivity. }
  repeat (split; [ first [ reflexivity | assumption ] | ]).
  exists dec.
  destruct (kw_bidirectional_decoder kw).
  - apply rbind_ok in Hback as ([lb h''] & Hcopy & [= <- <-]).
    apply deepcopy_spec in Hcopy as (d & Hd & Hnone & Hne & Hlb & Hld & _).
    rewrite lookup_insert_eq in Hd. injection Hd as <-.
    split; [exact Hld | ]. exists lb.
    repeat split; try assumption.
    rewrite lookup_insert_ne in Hnone by congruence. exact Hnone.
  - injection Hback as <- <-. split; [apply lookup_insert_eq | reflexivity].
Qed.
End Construction.

(** ** Facts about the fusion and the backward pass *)

Section PathFacts.
Context {elem : Type} (eadd : elem -> elem -> elem) `{L : Layers elem}.
Local Open Scope call_scope.

Lemma run_encoder_cache f w r w' :
  run_encoder f w = (r, w') ->
  speaker_embeddings (self w') = speaker_embeddings (self w).
Proof.
  unfold run_encoder. destruct (f _) as [r0 e']. intros [= _ <-]. reflexivity.
Qed.

(** The layout of a concatenation with a vector of one time position. *)
Lemma concat_speaker_embedding_layout (x s fused : tensor3 elem) :
  size1 s = 1 ->
  _concat_speaker_embedding x (Some s) = Ok fused ->
  concat_layout x s fused.
Proof.
  intros Hone H. unfold _concat_speaker_embedding in H.
  destruct (expand s (size0 x) (size1 x)) as [s'|] eqn:He; [ | discriminate ].
  destruct (expand_spec He) as (_ & _ & E2 & Eat).
  destruct (cat_last_spec H) as (F0 & F1 & F2 & Fat).
  unfold concat_layout. rewrite F0, F1, F2, E2. repeat split.
  intros b t k. rewrite Fat, Eat, Hone. reflexivity.
Qed.

(** Adding the vector instead gives a tensor of another width. *)
Lemma concat_is_not_add (x s fused : tensor3 elem) :
  0 < size2 s ->
  _concat_speaker_embedding x (Some s) = Ok fused ->
  _add_speaker_embedding eadd x (Some s) <> Ok fused.
Proof.
  intros Hpos Hcat Hadd.
  unfold _concat_speaker_embedding in Hcat. unfold _add_speaker_embedding in Hadd.
  destruct (expand s (size0 x) (size1 x)) as [s'|] eqn:He; [ | discriminate ].
  destruct (expand_spec He) as (_ & _ & E2 & _).
  destruct (cat_last_spec Hcat) as (_ & _ & F2 & _).
  unfold add3 in Hadd.
  destruct (broadcast_dim (size0 x) (size0 s')); [ | discriminate ].
  destruct (broadcast_dim (size1 x) (size1 s')); [ | discriminate ].
  destruct (broadcast_dim (size2 x) (size2 s')) as [k|] eqn:Hk; [ | discriminate ].
  injection Hadd as <-. cbn [size2] in F2.
  rewrite E2 in *. exact (broadcast_dim_not_sum Hpos Hk F2).
Qed.

(** The speaker step of a call on a model with a speaker layer: it returns
    only when ids were given, and then the cache holds their vectors. *)
Lemma compute_speaker_embedding_ok ids w w1 :
  hasattr_speaker_embedding (self w) = true ->
  compute_speaker_embedding ids w = (Ok tt, w1) ->
  exists l layer sp,
    ids = Some l /\ speaker_embedding (self w) = Some layer
    /\ Embedding_call1 layer l = Ok sp
    /\ w1 = with_cache (Some (unsqueeze1 sp)) w.
Proof.
  intros Hhas H. destruct ids as [l|].
  - unfold hasattr_speaker_embedding in Hhas.
    destruct (speaker_embedding (self w)) as [layer|] eqn:Hl; [ | discriminate ].
    rewrite (compute_speaker_embedding_given _ Hl) in H.
    destruct (Embedding_call1 layer l) as [sp|] eqn:Hsp; [ | discriminate ].
    injection H as <-. exists l, layer, sp. repeat split. exact Hsp.
  - rewrite (compute_speaker_embedding_absent Hhas) in H. discriminate.
Qed.

(** The steps of a backward pass that returns. *)
Lemma backward_inference_inv mel x mask w dob ab w' :
  _backward_inference mel x mask w = (Ok (dob, ab), w') ->
  exists lb t rb sb,
    decoder_backward (self w) = Some lb /\ mel = Some t
    /\ with_decoder lb (fun d => Decoder_call d x (Some (flip1 t)) mask) w
       = (Ok (rb, ab, sb), w')
    /\ dob = transpose12 rb.
Proof.
  intros H. unfold _backward_inference in H.
  bind_inv H as m w0 H0. read_inv H0.
  destruct (decoder_backward (self w)) as [lb|]; [ | discriminate ].
  bind_inv H as flipped w0 H0. lift_inv H0 as Hflip.
  destruct mel as [t|]; [ | discriminate ]. injection Hflip as <-.
  bind_inv H as r w1 Hdec. destruct r as [[rb ab'] sb].
  injection H as <- <- <-.
  exists lb, t, rb, sb. repeat split. exact Hdec.
Qed.


End PathFacts.

(** ** Where the exceptions of [forward] come from *)

Section ErrorFacts.
Context {elem : Type} (eadd : elem -> elem -> elem) `{L : Layers elem}.
Local Open Scope call_scope.

Lemma with_decoder_self {A} l (f : DecoderT -> result A * DecoderT) w r w' :
  with_decoder l f w = (r, w') -> self w' = self w.
Proof.
  unfold with_decoder. destruct (heap w !! l) as [d|].
  - destruct (f d) as [r0 d']. intros [= _ <-]. reflexivity.
  - intros [= _ <-]. reflexivity.
Qed.

(** The speaker step touches neither the modules nor the heap. *)
Lemma compute_speaker_embedding_modules ids w r w1 :
  compute_speaker_embedding ids w = (r, w1) ->
  heap w1 = heap w /\ postnet (self w1) = postnet (self w)
  /\ encoder (self w1) = encoder (self w).
Proof.
  intros H.
  assert (Hk : keeps (fun w => (heap w, postnet (self w), encoder (self w)))
                 (compute_speaker_embedding ids)).
  { unfold compute_speaker_embedding, _compute_speaker_embedding.
    repeat first
      [ apply keeps_bind; [ | intros ]
      | match goal with
        | |- keeps _ (if ?b then _ else _) => destruct b
        | |- keeps _ (match ?x with _ => _ end) => destruct x
        end
      | (intros w0; reflexivity) ]. }
  pose proof (keeps_run Hk H) as E. injection E as -> -> ->. repeat split.
Qed.

Lemma broadcast_dim_spec m n k :
  broadcast_dim m n = Some k ->
  (m = n \/ m = 1 \/ n = 1) /\ k = (if m =? 1 then n else m).
Proof.
  unfold broadcast_dim.
  destruct (Nat.eqb_spec m n) as [->|Hmn].
  - intros [= <-]. split; [ left; reflexivity | ].
    destruct (n =? 1); reflexivity.
  - destruct (Nat.eqb_spec m 1) as [->|Hm1].
    + intros [= <-]. split; [ right; left; reflexivity | reflexivity ].
    + destruct (Nat.eqb_spec n 1) as [->|Hn1]; [ | discriminate ].
      intros [= <-]. split; [ right; right; reflexivity | reflexivity ].
Qed.

(** The shape and the entries of a sum. *)
Lemma add3_spec (a b s : tensor3 elem) :
  add3 eadd a b = Ok s ->
  ((size0 a = size0 b \/ size0 a = 1 \/ size0 b = 1)
   /\ size0 s = (if size0 a =? 1 then size0 b else size0 a))
  /\ ((size1 a = size1 b \/ size1 a = 1 \/ size1 b = 1)
      /\ size1 s = (if size1 a =? 1 then size1 b else size1 a))
  /\ ((size2 a = size2 b \/ size2 a = 1 \/ size2 b = 1)
      /\ size2 s = (if size2 a =? 1 then size2 b else size2 a))
  /\ forall n i j,
       at3 s n i j
       = eadd (at3 a (if size0 a =? 1 then 0 else n) (if size1 a =? 1 then 0 else i)
                     (if size2 a =? 1 then 0 else j))
              (at3 b (if size0 b =? 1 then 0 else n) (if size1 b =? 1 then 0 else i)
                     (if size2 b =? 1 then 0 else j)).
Proof.
  unfold add3.
  destruct (broadcast_dim (size0 a) (size0 b)) as [k0|] eqn:H0; [ | discriminate ].
  destruct (broadcast_dim (size1 a) (size1 b)) as [k1|] eqn:H1; [ | discriminate ].
  destruct (broadcast_dim (size2 a) (size2 b)) as [k2|] eqn:H2; [ | discriminate ].
  intros [= <-]. cbn [size0 size1 size2 at3].
  repeat split; try (apply (broadcast_dim_spec H0)); try (apply (broadcast_dim_spec H1));
    try (apply (broadcast_dim_spec H2)).
Qed.














End ErrorFacts.

(** * The properties *)

Section Properties.
Context {elem : Type} (ezero : elem) (eadd : elem -> elem -> elem) `{L : Layers elem}.
Local Open Scope call_scope.

(** C10.  [shape_outputs] exchanges the last two axes of the two mel tensors
    and hands back the alignments it was given: the third component of its
    result is its third argument. *)
Theorem shape_outputs_keeps_alignments (mel_outputs mel_outputs_postnet alignments : tensor3 elem) :
  shape_outputs mel_outputs mel_outputs_postnet alignments
  = (transpose12 mel_outputs, transpose12 mel_outputs_postnet, alignments)
  /\ snd (shape_outputs mel_outputs mel_outputs_postnet alignments) = alignments
  /\ (forall t : tensor3 elem,
        size0 (transpose12 t) = size0 t /\ size1 (transpose12 t) = size2 t
        /\ size2 (transpose12 t) = size1 t
        /\ forall b i j, at3 (transpose12 t) b i j = at3 t b j i).
Proof.
  split; [reflexivity | ]. split; [reflexivity | ].
  intros t. repeat split.
Qed.

(** C5.  In [forward] and in [inference] the refined mel output is the raw
    decoder output plus the postnet applied to that raw output: with [raw]
    what the decoder returned and [pn] what the postnet returned on [raw],
    the call returns [raw] and [raw + pn], both with their last two axes
    exchanged.  In the returned layout the refined output is the returned
    raw output plus the postnet's, and when the postnet keeps the shape of
    its input each refined entry is the raw entry plus the postnet's entry:
    the postnet's output is added, it never replaces the raw output.  The
    sum has, on each axis, the size of the raw output, or that of the
    postnet's output where the raw output has size 1 there, and each of its
    entries is the raw entry plus the postnet's entry, an axis of size 1
    being read at index 0; when the postnet keeps the shape of its input the
    refined output has the shape of the returned raw output. *)
Theorem postnet_is_residual :
  (forall ch tl mel ids w out w',
     forward eadd ch tl mel ids w = (Ok out, w') ->
     exists fused raw al st pn sum wd wd' wp,
       with_decoder (decoder (self w))
         (fun d => Decoder_call d fused mel (sequence_mask tl)) wd = (Ok (raw, al, st), wd')
       /\ run_postnet (fun p => Postnet_call p raw) wd' = (Ok pn, wp)
       /\ add3 eadd raw pn = Ok sum
       /\ forward_outputs out = (transpose12 raw, transpose12 sum, al, st)
       /\ add3 eadd (transpose12 raw) (transpose12 pn) = Ok (transpose12 sum)
       /\ (size0 raw = size0 pn -> size1 raw = size1 pn -> size2 raw = size2 pn ->
           forall b t c, b < size0 raw -> t < size2 raw -> c < size1 raw ->
             at3 (transpose12 sum) b t c
             = eadd (at3 (transpose12 raw) b t c) (at3 (transpose12 pn) b t c))
       /\ size0 sum = (if size0 raw =? 1 then size0 pn else size0 raw)
       /\ size1 sum = (if size1 raw =? 1 then size1 pn else size1 raw)
       /\ size2 sum = (if size2 raw =? 1 then size2 pn else size2 raw)
       /\ (forall b c t,
             at3 sum b c t
             = eadd (at3 raw (if size0 raw =? 1 then 0 else b)
                             (if size1 raw =? 1 then 0 else c)
                             (if size2 raw =? 1 then 0 else t))
                    (at3 pn (if size0 pn =? 1 then 0 else b)
                            (if size1 pn =? 1 then 0 else c)
                            (if size2 pn =? 1 then 0 else t)))
       /\ (size0 raw = size0 pn -> size1 raw = size1 pn -> size2 raw = size2 pn ->
           size0 (transpose12 sum) = size0 (transpose12 raw)
           /\ size1 (transpose12 sum) = size1 (transpose12 raw)
           /\ size2 (transpose12 sum) = size2 (transpose12 raw)
           /\ size0 (transpose12 sum) = size0 raw
           /\ size1 (transpose12 sum) = size2 raw
           /\ size2 (transpose12 sum) = size1 raw))
  /\ (forall ch ids w out w',
     inference eadd ch ids w = (Ok out, w') ->
     exists fused raw al st pn sum wd wd' wp,
       with_decoder (decoder (self w)) (fun d => Decoder_inference d fused) wd
       = (Ok (raw, al, st), wd')
       /\ run_postnet (fun p => Postnet_call p raw) wd' = (Ok pn, wp)
       /\ add3 eadd raw pn = Ok sum
       /\ out = (transpose12 raw, transpose12 sum, al, st)
       /\ add3 eadd (transpose12 raw) (transpose12 pn) = Ok (transpose12 sum)
       /\ (size0 raw = size0 pn -> size1 raw = size1 pn -> size2 raw = size2 pn ->
           forall b t c, b < size0 raw -> t < size2 raw -> c < size1 raw ->
             at3 (transpose12 sum) b t c
             = eadd (at3 (transpose12 raw) b t c) (at3 (transpose12 pn) b t c))
       /\ size0 sum = (if size0 raw =? 1 then size0 pn else size0 raw)
       /\ size1 sum = (if size1 raw =? 1 then size1 pn else size1 raw)
       /\ size2 sum = (if size2 raw =? 1 then size2 pn else size2 raw)
       /\ (forall b c t,
             at3 sum b c t
             = eadd (at3 raw (if size0 raw =? 1 then 0 else b)
                             (if size1 raw =? 1 then 0 else c)
                             (if size2 raw =? 1 then 0 else t))
                    (at3 pn (if size0 pn =? 1 then 0 else b)
                            (if size1 pn =? 1 then 0 else c)
                            (if size2 pn =? 1 then 0 else t)))
       /\ (size0 raw = size0 pn -> size1 raw = size1 pn -> size2 raw = size2 pn ->
           size0 (transpose12 sum) = size0 (transpose12 raw)
           /\ size1 (transpose12 sum) = size1 (transpose12 raw)
           /\ size2 (transpose12 sum) = size2 (transpose12 raw)
           /\ size0 (transpose12 sum) = size0 raw
           /\ size1 (transpose12 sum) = size2 raw
           /\ size2 (transpose12 sum) = size1 raw)).
Proof.
  assert (Hentry : forall raw pn sum : tensor3 elem,
            add3 eadd raw pn = Ok sum ->
            size0 raw = size0 pn -> size1 raw = size1 pn -> size2 raw = size2 pn ->
            forall b t c, b < size0 raw -> t < size2 raw -> c < size1 raw ->
              at3 (transpose12 sum) b t c
              = eadd (at3 (transpose12 raw) b t c) (at3 (transpose12 pn) b t c)).
  { intros raw pn sum Hsum E0 E1 E2 b t c Hb Ht Hc.
    destruct (add3_same_shape Hsum E0 E1 E2) as (_ & _ & _ & Hat).
    rewrite !transpose12_at. apply Hat; assumption. }
  assert (Hshape : forall raw pn sum : tensor3 elem,
            add3 eadd raw pn = Ok sum ->
            size0 sum = (if size0 raw =? 1 then size0 pn else size0 raw)
            /\ size1 sum = (if size1 raw =? 1 then size1 pn else size1 raw)
            /\ size2 sum = (if size2 raw =? 1 then size2 pn else size2 raw)
            /\ (forall b c t,
                  at3 sum b c t
                  = eadd (at3 raw (if size0 raw =? 1 then 0 else b)
                                  (if size1 raw =? 1 then 0 else c)
                                  (if size2 raw =? 1 then 0 else t))
                         (at3 pn (if size0 pn =? 1 then 0 else b)
                                 (if size1 pn =? 1 then 0 else c)
                                 (if size2 pn =? 1 then 0 else t)))
            /\ (size0 raw = size0 pn -> size1 raw = size1 pn -> size2 raw = size2 pn ->
                size0 (transpose12 sum) = size0 (transpose12 raw)
                /\ size1 (transpose12 sum) = size1 (transpose12 raw)
                /\ size2 (transpose12 sum) = size2 (transpose12 raw)
                /\ size0 (transpose12 sum) = size0 raw
                /\ size1 (transpose12 sum) = size2 raw
                /\ size2 (transpose12 sum) = size1 raw)).
  { intros raw pn sum Hsum.
    destruct (add3_spec Hsum) as ((_ & S0) & (_ & S1) & (_ & S2) & Hat).
    repeat (split; [ assumption | ]).
    intros E0 E1 E2.
    destruct (add3_same_shape Hsum E0 E1 E2) as (T0 & T1 & T2 & _).
    cbn [transpose12 size0 size1 size2]. repeat split; assumption. }
  split.
  - intros ch tl mel ids w out w' H.
    destruct (forward_inv H)
      as (emb & w1 & enc & w2 & fused & raw & al & st & w3 & pn & w4 & sum
          & _ & _ & _ & _ & Hdec & Hpost & Hsum & _ & _ & Hout).
    exists fused, raw, al, st, pn, sum, w2, w3, w4.
    repeat (split; [assumption | ]). split; [ | split ].
    + destruct (bidirectional_decoder (self w)).
      * destruct Hout as (dob & ab & _ & ->). reflexivity.
      * destruct Hout as [-> _]. reflexivity.
    + apply add3_transpose12, Hsum.
    + split; [ exact (Hentry _ _ _ Hsum) | exact (Hshape _ _ _ Hsum) ].
  - intros ch ids w out w' H.
    destruct (inference_inv H)
      as (emb & w1 & enc & w2 & fused & raw & al & st & w3 & pn & sum
          & _ & _ & _ & _ & Hdec & Hpost & Hsum & _ & Hout).
    exists fused, raw, al, st, pn, sum, w2, w3, w'.
    repeat (split; [assumption | ]). split.
    + apply add3_transpose12, Hsum.
    + split; [ exact (Hentry _ _ _ Hsum) | exact (Hshape _ _ _ Hsum) ].
Qed.

(** C6.  A [forward] call that returns ran the forward decoder on the fused
    encoder output, the target and the mask.  With [bidirectional_decoder]
    set it also ran the backward decoder on the same fused encoder output
    and the same mask, with the target flipped along its time axis, and it
    returns six outputs, the last two being the backward mel frames (last
    two axes exchanged) and the backward alignments.  The flipped target
    has the shape of the target, its frame [i] is the target's frame
    [size1 t - 1 - i], which is one of the target's frames, and flipping it
    again gives back the target's frames.  Without it, it returns
    the four forward outputs and no decoder module other than the forward
    one has been run. *)
Theorem backward_decoder_on_reversed_target ch tl mel ids w out w' :
  forward eadd ch tl mel ids w = (Ok out, w') ->
  exists fused raw al st wd wd',
    with_decoder (decoder (self w))
      (fun d => Decoder_call d fused mel (sequence_mask tl)) wd = (Ok (raw, al, st), wd')
    /\ fst (fst (fst (forward_outputs out))) = transpose12 raw
    /\ snd (fst (forward_outputs out)) = al
    /\ snd (forward_outputs out) = st
    /\ if bidirectional_decoder (self w)
       then exists lb t rb ab sb wb,
              decoder_backward (self w) = Some lb
              /\ mel = Some t
              /\ with_decoder lb
                   (fun d => Decoder_call d fused (Some (flip1 t)) (sequence_mask tl)) wb
                 = (Ok (rb, ab, sb), w')
              /\ backward_outputs out = Some (transpose12 rb, ab)
              /\ (forall b i j, at3 (flip1 t) b i j = at3 t b (size1 t - 1 - i) j)
              /\ size0 (flip1 t) = size0 t
              /\ size1 (flip1 t) = size1 t
              /\ size2 (flip1 t) = size2 t
              /\ (forall i, i < size1 t -> size1 t - 1 - i < size1 t)
              /\ (forall b i j, i < size1 t ->
                    at3 (flip1 (flip1 t)) b i j = at3 t b i j)
       else backward_outputs out = None
            /\ forall l, l <> decoder (self w) -> heap w' !! l = heap w !! l.
Proof.
  intros H.
  destruct (forward_inv H)
    as (emb & w1 & enc & w2 & fused & raw & al & st & w3 & pn & w4 & sum
        & _ & Hspk & Henc & _ & Hdec & Hpost & _ & _ & A4 & Hout).
  exists fused, raw, al, st, w2, w3.
  split; [exact Hdec | ].
  destruct (bidirectional_decoder (self w)).
  - destruct Hout as (dob & ab & Hback & ->).
    repeat (split; [reflexivity | ]).
    destruct (backward_inference_inv Hback) as (lb & t & rb & sb & Hlb & -> & Hrun & ->).
    destruct (attrs_fields A4) as (_ & _ & _ & _ & _ & Eback).
    rewrite Eback in Hlb.
    exists lb, t, rb, ab, sb, w4.
    repeat (split; [ first [ assumption | reflexivity ] | ]).
    split; [ intros i Hi; lia | ].
    intros b i j Hi. apply flip1_flip1_at, Hi.
  - destruct Hout as [-> ->].
    repeat (split; [reflexivity | ]).
    intros l Hl.
    change (cell l w4 = cell l w).
    rewrite (keeps_run (keeps_cell_run_postnet l _) Hpost).
    rewrite (keeps_run (@keeps_cell_with_decoder _ _ _ l _ _ (not_eq_sym Hl)) Hdec).
    rewrite (keeps_run (keeps_cell_run_encoder l _) Henc).
    rewrite (keeps_run (keeps_cell_compute_speaker_embedding l ids) Hspk).
    reflexivity.
Qed.

(** C7.  The constructor makes the backward decoder as a copy of the forward
    decoder: a module at a reference of its own, new in the heap, with the
    content of the forward decoder.  No [forward] call reassigns either
    reference.  The four forward outputs do not depend on the backward
    decoder: two [forward] calls on the same arguments, from states that
    differ only in the module at the backward reference, return the same
    four forward outputs. *)
Theorem backward_decoder_is_independent :
  (forall n_chars n_speakers r kw rng (h : gmap loc DecoderT) w,
     __init__ ezero n_chars n_speakers r kw rng h = Ok w ->
     kw_bidirectional_decoder kw = true ->
     exists lb d,
       decoder_backward (self w) = Some lb
       /\ lb <> decoder (self w)
       /\ h !! lb = None /\ h !! decoder (self w) = None
       /\ heap w !! lb = Some d /\ heap w !! decoder (self w) = Some d)
  /\ (forall ch tl mel ids w,
        decoder (self (snd (forward eadd ch tl mel ids w))) = decoder (self w)
        /\ decoder_backward (self (snd (forward eadd ch tl mel ids w)))
           = decoder_backward (self w))
  /\ (forall w lb d' ch tl mel ids out1 w1 out2 w2,
        decoder_backward (self w) = Some lb ->
        lb <> decoder (self w) ->
        forward eadd ch tl mel ids w = (Ok out1, w1) ->
        forward eadd ch tl mel ids (with_module lb d' w) = (Ok out2, w2) ->
        forward_outputs out1 = forward_outputs out2).
Proof.
  split; [ | split ].
  - intros n_chars n_speakers r kw rng h w Hinit Hbi.
    destruct (init_inv Hinit) as (_ & _ & _ & _ & _ & _ & Hnew & d & Hd & Hback).
    rewrite Hbi in Hback. destruct Hback as (lb & Hlb & Hne & Hnone & Hcopy).
    exists lb, d. repeat (split; [assumption | ]). assumption.
  - intros ch tl mel ids w.
    destruct (attrs_fields (keeps_attrs_forward eadd ch tl mel ids w))
      as (_ & _ & _ & _ & Hd & Hb).
    split; assumption.
  - intros w lb d' ch tl mel ids out1 w1 out2 w2 _ Hne Hw Hv.
    apply (forward_outputs_apart (lb := lb) (apart_with_module lb d' w)
             (not_eq_sym Hne) Hw Hv).
Qed.

(** C8.  On a model with several speakers, [forward] and [inference] fuse
    the speaker vector into the encoder output in the same way: the tensor
    handed to the decoder is [_concat_speaker_embedding] of the encoder
    output and the looked-up speaker vectors, that is the encoder output
    with the vector of each sample appended to the features at every time
    position; it is not the sum that [_add_speaker_embedding] would give. *)
Theorem speaker_fusion_is_concatenation w :
  wf w -> (1 < num_speakers (self w))%Z ->
  (forall ch tl mel ids out w',
     forward eadd ch tl mel ids w = (Ok out, w') ->
     exists l layer sp x enc fused we wd r wd',
       ids = Some l /\ speaker_embedding (self w) = Some layer
       /\ Embedding_call1 layer l = Ok sp
       /\ run_encoder (fun e => Encoder_call e x tl) we = (Ok enc, wd)
       /\ _concat_speaker_embedding enc (Some (unsqueeze1 sp)) = Ok fused
       /\ concat_layout enc (unsqueeze1 sp) fused
       /\ (0 < cols sp -> _add_speaker_embedding eadd enc (Some (unsqueeze1 sp)) <> Ok fused)
       /\ with_decoder (decoder (self w))
            (fun d => Decoder_call d fused mel (sequence_mask tl)) wd = (Ok r, wd'))
  /\ (forall ch ids out w',
     inference eadd ch ids w = (Ok out, w') ->
     exists l layer sp x enc fused we wd r wd',
       ids = Some l /\ speaker_embedding (self w) = Some layer
       /\ Embedding_call1 layer l = Ok sp
       /\ run_encoder (fun e => Encoder_inference e x) we = (Ok enc, wd)
       /\ _concat_speaker_embedding enc (Some (unsqueeze1 sp)) = Ok fused
       /\ concat_layout enc (unsqueeze1 sp) fused
       /\ (0 < cols sp -> _add_speaker_embedding eadd enc (Some (unsqueeze1 sp)) <> Ok fused)
       /\ with_decoder (decoder (self w)) (fun d => Decoder_inference d fused) wd
          = (Ok r, wd')).
Proof.
  intros Hwf Hmulti.
  assert (Hltb : (1 <? num_speakers (self w))%Z = true) by (apply Z.ltb_lt, Hmulti).
  assert (Hhas : hasattr_speaker_embedding (self (with_cache None w)) = true)
    by (unfold wf in Hwf; cbn; rewrite <- Hltb; exact Hwf).
  split.
  - intros ch tl mel ids out w' H.
    destruct (forward_inv H)
      as (emb & w1 & enc & w2 & fused & raw & al & st & w3 & pn & w4 & sum
          & _ & Hspk & Henc & Hfuse & Hdec & _ & _ & A2 & _ & _).
    destruct (compute_speaker_embedding_ok Hhas Hspk)
      as (l & layer & sp & -> & Hlayer & Hsp & ->).
    destruct (attrs_fields A2) as (En & _).
    rewrite fuse_speaker_multi in Hfuse by (rewrite En; exact Hltb).
    rewrite (run_encoder_cache Henc) in Hfuse. cbn [with_cache self speaker_embeddings
      set_speaker_embeddings] in Hfuse. injection Hfuse as Hfuse.
    exists l, layer, sp, (transpose12 emb), enc, fused,
      (with_cache (Some (unsqueeze1 sp)) w), w2, (raw, al, st), w3.
    repeat (split; [ first [ assumption | reflexivity ] | ]).
    split; [ apply concat_speaker_embedding_layout; [reflexivity | exact Hfuse] | ].
    split; [ intros Hpos; apply concat_is_not_add; assumption | exact Hdec ].
  - intros ch ids out w' H.
    destruct (inference_inv H)
      as (emb & w1 & enc & w2 & fused & raw & al & st & w3 & pn & sum
          & _ & Hspk & Henc & Hfuse & Hdec & _ & _ & A2 & _).
    destruct (compute_speaker_embedding_ok Hhas Hspk)
      as (l & layer & sp & -> & Hlayer & Hsp & ->).
    destruct (attrs_fields A2) as (En & _).
    rewrite fuse_speaker_multi in Hfuse by (rewrite En; exact Hltb).
    rewrite (run_encoder_cache Henc) in Hfuse. cbn [with_cache self speaker_embeddings
      set_speaker_embeddings] in Hfuse. injection Hfuse as Hfuse.
    exists l, layer, sp, (transpose12 emb), enc, fused,
      (with_cache (Some (unsqueeze1 sp)) w), w2, (raw, al, st), w3.
    repeat (split; [ first [ assumption | reflexivity ] | ]).
    split; [ apply concat_speaker_embedding_layout; [reflexivity | exact Hfuse] | ].
    split; [ intros Hpos; apply concat_is_not_add; assumption | exact Hdec ].
Qed.


(** C1 (amended).  On a model with several speakers, [forward] and
    [inference] called without speaker ids fail: with the token look-up's
    own exception when a token id is out of range, and otherwise with
    [RuntimeError] and the message [no_speaker_id] carries.  On a model with
    one speaker the speaker step returns without raising and without
    touching the state, the fusion leaves the encoder output as it is, and
    the calls do not depend on the speaker ids at all. *)
Theorem missing_speaker_id w :
  wf w ->
  ((1 < num_speakers (self w))%Z ->
     (forall ch tl mel,
        forward eadd ch tl mel None w
        = (match Embedding_call (embedding (self w)) ch with
           | Ok _ => Raise no_speaker_id
           | Raise e => Raise e
           end, with_cache None w))
     /\ (forall ch,
        inference eadd ch None w
        = match Embedding_call (embedding (self w)) ch with
          | Ok _ => (Raise no_speaker_id, with_cache None w)
          | Raise e => (Raise e, w)
          end))
  /\ ((num_speakers (self w) <= 1)%Z ->
        compute_speaker_embedding None w = (Ok tt, w)
        /\ (forall x, fuse_speaker x w = (Ok x, w))
        /\ (forall ch tl mel ids,
              forward eadd ch tl mel ids w = forward eadd ch tl mel None w)
        /\ (forall ch ids, inference eadd ch ids w = inference eadd ch None w)).
Proof.
  intros Hwf. unfold wf in Hwf. split.
  - intros Hmulti.
    assert (Hhas : hasattr_speaker_embedding (self (with_cache None w)) = true)
      by (change (hasattr_speaker_embedding (self w) = true);
          rewrite Hwf; apply Z.ltb_lt, Hmulti).
    split.
    + intros ch tl mel. unfold forward.
      rewrite (bind_step _ (init_states_run w)).
      erewrite bind_step by reflexivity.
      unfold bind at 1, lift at 1.
      cbn [with_cache self embedding set_speaker_embeddings].
      destruct (Embedding_call (embedding (self w)) ch) as [emb|e]; [ | reflexivity ].
      rewrite (bind_stop _ (compute_speaker_embedding_absent Hhas)). reflexivity.
    + intros ch. unfold inference.
      erewrite bind_step by reflexivity.
      unfold bind at 1, lift at 1.
      destruct (Embedding_call (embedding (self w)) ch) as [emb|e]; [ | reflexivity ].
      rewrite (bind_step _ (init_states_run w)).
      rewrite (bind_stop _ (compute_speaker_embedding_absent Hhas)). reflexivity.
  - intros Hone.
    assert (Hltb : (1 <? num_speakers (self w))%Z = false) by (apply Z.ltb_ge, Hone).
    assert (Hhas : hasattr_speaker_embedding (self w) = false) by congruence.
    assert (Hhas' : hasattr_speaker_embedding (self (with_cache None w)) = false)
      by exact Hhas.
    split; [ apply compute_speaker_embedding_single, Hhas | ].
    split; [ intros x; apply fuse_speaker_single, Hltb | ].
    split.
    + intros ch tl mel ids. unfold forward.
      apply bind_cong; [ reflexivity | intros [] w1 [= <-] ].
      apply bind_cong; [ reflexivity | intros m w1 [= <- <-] ].
      apply bind_cong; [ reflexivity | intros emb w1 [= _ <-] ].
      apply bind_cong; [ | reflexivity ].
      rewrite !(compute_speaker_embedding_single _ Hhas'). reflexivity.
    + intros ch ids. unfold inference.
      apply bind_cong; [ reflexivity | intros m w1 [= <- <-] ].
      apply bind_cong; [ reflexivity | intros emb w1 [= _ <-] ].
      apply bind_cong; [ reflexivity | intros [] w1 [= <-] ].
      apply bind_cong; [ | reflexivity ].
      rewrite !(compute_speaker_embedding_single _ Hhas'). reflexivity.
Qed.

(** C2 (amended).  [inference_truncated] never returns: on every input it
    raises.  It runs the speaker step, the token look-up, the encoder and
    the fusion; if one of them raises, that exception ends the call, and
    when all four return the call ends at the decoder invocation with
    [NameError] for the name [encoder_output], which nothing binds. *)
Theorem inference_truncated_never_returns text ids w :
  (exists e, fst (inference_truncated eadd text ids w) = Raise e)
  /\ inference_truncated eadd text ids w =
       match compute_speaker_embedding ids w with
       | (Raise e, w1) => (Raise e, w1)
       | (Ok _, w1) =>
           match Embedding_call (embedding (self w1)) text with
           | Raise e => (Raise e, w1)
           | Ok embedded =>
               match run_encoder
                       (fun e => Encoder_inference_truncated e (transpose12 embedded))
                       w1 with
               | (Raise e, w2) => (Raise e, w2)
               | (Ok enc, w2) =>
                   match fuse_speaker enc w2 with
                   | (Raise e, w3) => (Raise e, w3)
                   | (Ok _, w3) => (Raise undefined_encoder_output, w3)
                   end
               end
           end
       end.
Proof.
  split; [ | apply inference_truncated_run ].
  rewrite inference_truncated_run.
  destruct (compute_speaker_embedding ids w) as [[u|e] w1]; [ | exists e; reflexivity ].
  destruct (Embedding_call (embedding (self w1)) text) as [emb|e];
    [ | exists e; reflexivity ].
  destruct (run_encoder _ w1) as [[enc|e] w2]; [ | exists e; reflexivity ].
  destruct (fuse_speaker enc w2) as [[fused|e] w3]; [ | exists e; reflexivity ].
  exists undefined_encoder_output. reflexivity.
Qed.


(** The row of token id 0 after construction: the [uniform_] draws. *)
Lemma token_zero_row_is_a_draw n_chars n_speakers r kw rng (h : gmap loc DecoderT) w :
  __init__ ezero n_chars n_speakers r kw rng h = Ok w ->
  0 < rows (weight (embedding (self w)))
  /\ forall j, at2 (weight (embedding (self w))) 0 j = embedding_uniform rng 0 j.
Proof.
  intros H. destruct (init_inv H) as (_ & _ & Hpos & -> & _).
  cbn [weight rows at2]. split; [ lia | reflexivity ].
Qed.
End Properties.

(** * The properties on the small instance *)

(** The two models of [Small] are what the constructor builds. *)
Example single_is_constructed :
  __init__ 0%Q 50 1 1 default_keywords Small.draws ∅ = Ok Small.single.
Proof. reflexivity. Qed.

Example multi_is_constructed :
  __init__ 0%Q 50 2 1 Small.bidirectional Small.draws ∅ = Ok Small.multi.
Proof. reflexivity. Qed.

(** C1, as stated, fails: on the two-speaker model, [forward] and
    [inference] without speaker ids raise [RuntimeError] with the message
    of the source, not [ConfigurationError] with the message of the claim. *)
Lemma missing_speaker_id_is_a_runtime_error :
  (1 < num_speakers (self Small.multi))%Z
  /\ fst (forward Qplus Small.tokens [4%Z] (Some Small.target) None Small.multi)
     = Raise (Exn "RuntimeError"
                  " [!] Model has speaker embedding layer but speaker_id is not provided")
  /\ fst (inference Qplus Small.tokens None Small.multi)
     = Raise (Exn "RuntimeError"
                  " [!] Model has speaker embedding layer but speaker_id is not provided")
  /\ Exn "RuntimeError"
         " [!] Model has speaker embedding layer but speaker_id is not provided"
     <> Exn "ConfigurationError"
            "speaker embedding layer present but no speaker id supplied".
Proof.
  split; [ reflexivity | ].
  split; [ vm_compute; reflexivity | ].
  split; [ vm_compute; reflexivity | discriminate ].
Qed.

Lemma missing_speaker_id_witness :
  wf Small.multi
  /\ fst (forward Qplus Small.tokens [4%Z] (Some Small.target) None Small.multi)
     = Raise no_speaker_id
  /\ wf Small.single
  /\ forward Qplus Small.tokens [4%Z] (Some Small.target) (Some [1%Z]) Small.single
     = forward Qplus Small.tokens [4%Z] (Some Small.target) None Small.single.
Proof.
  assert (Hm : wf Small.multi) by reflexivity.
  assert (Hs : wf Small.single) by reflexivity.
  destruct (missing_speaker_id Qplus Hm) as [Hmulti _].
  destruct (missing_speaker_id Qplus Hs) as [_ Hsingle].
  split; [ exact Hm | ]. split.
  - assert (H2 : (1 < num_speakers (self Small.multi))%Z) by reflexivity.
    rewrite (proj1 (Hmulti H2)). reflexivity.
  - split; [ exact Hs | ].
    assert (H1 : (num_speakers (self Small.single) <= 1)%Z) by (vm_compute; discriminate).
    apply (Hsingle H1).
Defined.

(** C2, as stated, fails: on the two-speaker model, [inference_truncated]
    without speaker ids ends at the speaker step with [RuntimeError]; it
    does not get as far as the decoder invocation and the undefined name. *)
Lemma inference_truncated_stops_at_the_speaker_step :
  fst (inference_truncated Qplus Small.tokens None Small.multi) = Raise no_speaker_id
  /\ exn_class no_speaker_id = "RuntimeError"%string
  /\ no_speaker_id <> undefined_encoder_output.
Proof.
  split; [ vm_compute; reflexivity | ].
  split; [ reflexivity | discriminate ].
Qed.

(** C3 fails on the code: the constructor passes [padding_idx=0], which
    zeroes row 0, and then overwrites the whole table with [uniform_].
    After construction with a draw of 1/16, token id 0 maps to a row of
    1/16, not to the zero vector. *)
Theorem padding_row_is_overwritten :
  __init__ 0%Q 50 1 1 default_keywords Small.draws ∅ = Ok Small.single
  /\ padding_idx (embedding (self Small.single)) = Some 0
  /\ exists row,
       Embedding_call (embedding (self Small.single)) (T2 1 1 (fun _ _ => 0%Z)) = Ok row
       /\ at3 row 0 0 0 = (1 # 16)%Q
       /\ ~ (at3 row 0 0 0 == 0)%Q.
Proof.
  split; [ reflexivity | ]. split; [ reflexivity | ].
  eexists. split; [ vm_compute; reflexivity | ].
  split; [ reflexivity | ]. cbn. intros H. discriminate H.
Qed.



Lemma postnet_is_residual_witness :
  (exists out w' raw pn sum,
     forward Qplus Small.tokens [4%Z] (Some Small.target) None Small.single = (Ok out, w')
     /\ add3 Qplus raw pn = Ok sum
     /\ fst (fst (forward_outputs out)) = (transpose12 raw, transpose12 sum))
  /\ (exists out w' raw pn sum,
     inference Qplus Small.tokens None Small.single = (Ok out, w')
     /\ add3 Qplus raw pn = Ok sum
     /\ fst (fst out) = (transpose12 raw, transpose12 sum)).
Proof.
  split.
  - assert (H : exists out w',
              forward Qplus Small.tokens [4%Z] (Some Small.target) None Small.single
              = (Ok out, w'))
      by (eexists; eexists; vm_compute; reflexivity).
    destruct H as (out & w' & H).
    destruct (proj1 (postnet_is_residual Qplus) _ _ _ _ _ _ _ H)
      as (fused & raw & al & st & pn & sum & wd & wd' & wp & _ & _ & Hsum & Hout & _).
    exists out, w', raw, pn, sum.
    split; [ exact H | ]. split; [ exact Hsum | ]. rewrite Hout. reflexivity.
  - assert (H : exists out w',
              inference Qplus Small.tokens None Small.single = (Ok out, w'))
      by (eexists; eexists; vm_compute; reflexivity).
    destruct H as (out & w' & H).
    destruct (proj2 (postnet_is_residual Qplus) _ _ _ _ _ H)
      as (fused & raw & al & st & pn & sum & wd & wd' & wp & _ & _ & Hsum & Hout & _).
    exists out, w', raw, pn, sum.
    split; [ exact H | ]. split; [ exact Hsum | ]. rewrite Hout. reflexivity.
Defined.

Lemma backward_decoder_on_reversed_target_witness :
  exists out w' rb ab,
    forward Qplus Small.tokens [4%Z] (Some Small.target) (Some [1%Z]) Small.multi
    = (Ok out, w')
    /\ backward_outputs out = Some (transpose12 rb, ab).
Proof.
  assert (H : exists out w',
            forward Qplus Small.tokens [4%Z] (Some Small.target) (Some [1%Z]) Small.multi
            = (Ok out, w'))
    by (eexists; eexists; vm_compute; reflexivity).
  destruct H as (out & w' & H).
  destruct (backward_decoder_on_reversed_target H)
    as (fused & raw & al & st & wd & wd' & _ & _ & _ & _ & Hback).
  change (bidirectional_decoder (self Small.multi)) with true in Hback.
  destruct Hback as (lb & t & rb & ab & sb & wb & _ & _ & _ & Hout & _).
  exists out, w', rb, ab. split; [ exact H | exact Hout ].
Defined.

Lemma backward_decoder_is_independent_witness :
  (exists lb d,
     decoder_backward (self Small.multi) = Some lb
     /\ lb <> decoder (self Small.multi)
     /\ heap Small.multi !! lb = Some d
     /\ heap Small.multi !! decoder (self Small.multi) = Some d)
  /\ exists out1 w1 out2 w2,
       forward Qplus Small.tokens [4%Z] (Some Small.target) (Some [1%Z]) Small.multi
       = (Ok out1, w1)
       /\ forward Qplus Small.tokens [4%Z] (Some Small.target) (Some [1%Z])
            (@with_module Q Small.layers 1 (3 # 4)%Q Small.multi) = (Ok out2, w2)
       /\ forward_outputs out1 = forward_outputs out2.
Proof.
  destruct (@backward_decoder_is_independent Q 0%Q Qplus Small.layers)
    as (Hinit & _ & Hind).
  split.
  - destruct (Hinit _ _ _ _ _ _ _ multi_is_constructed eq_refl)
      as (lb & d & Hlb & Hne & _ & _ & Hcopy & Hd).
    exists lb, d. repeat (split; [ assumption | ]). assumption.
  - assert (H1 : exists out w',
              forward Qplus Small.tokens [4%Z] (Some Small.target) (Some [1%Z]) Small.multi
              = (Ok out, w'))
      by (eexists; eexists; vm_compute; reflexivity).
    assert (H2 : exists out w',
              forward Qplus Small.tokens [4%Z] (Some Small.target) (Some [1%Z])
                (@with_module Q Small.layers 1 (3 # 4)%Q Small.multi) = (Ok out, w'))
      by (eexists; eexists; vm_compute; reflexivity).
    destruct H1 as (out1 & w1 & H1), H2 as (out2 & w2 & H2).
    exists out1, w1, out2, w2.
    split; [ exact H1 | ]. split; [ exact H2 | ].
    apply (Hind Small.multi 1 (3 # 4)%Q _ _ _ _ _ _ _ _ eq_refl
             ltac:(discriminate) H1 H2).
Defined.

(** The backward outputs, for their part, do change with the backward
    decoder. *)
Example backward_outputs_follow_the_backward_decoder :
  match fst (forward Qplus Small.tokens [4%Z] (Some Small.target) (Some [1%Z]) Small.multi),
        fst (forward Qplus Small.tokens [4%Z] (Some Small.target) (Some [1%Z])
               (@with_module Q Small.layers 1 (3 # 4)%Q Small.multi)) with
  | Ok (Out6 _ _ _ _ b1 _), Ok (Out6 _ _ _ _ b2 _) => ~ (at3 b1 0 0 0 == at3 b2 0 0 0)%Q
  | _, _ => False
  end.
Proof. vm_compute. intros H. discriminate H. Qed.

Lemma speaker_fusion_is_concatenation_witness :
  (exists out w' (enc : tensor3 Q) (sp : tensor2 Q) (fused : tensor3 Q),
     forward Qplus Small.tokens [4%Z] (Some Small.target) (Some [1%Z]) Small.multi
     = (Ok out, w')
     /\ _concat_speaker_embedding enc (Some (unsqueeze1 sp)) = Ok fused
     /\ size2 fused = size2 enc + cols sp)
  /\ (exists out w' (enc : tensor3 Q) (sp : tensor2 Q) (fused : tensor3 Q),
     inference Qplus Small.tokens (Some [1%Z]) Small.multi = (Ok out, w')
     /\ _concat_speaker_embedding enc (Some (unsqueeze1 sp)) = Ok fused
     /\ size2 fused = size2 enc + cols sp).
Proof.
  assert (Hwf : wf Small.multi) by reflexivity.
  assert (Hm : (1 < num_speakers (self Small.multi))%Z) by reflexivity.
  destruct (speaker_fusion_is_concatenation Qplus Hwf Hm) as [Hf Hi].
  split.
  - assert (H : exists out w',
              forward Qplus Small.tokens [4%Z] (Some Small.target) (Some [1%Z]) Small.multi
              = (Ok out, w'))
      by (eexists; eexists; vm_compute; reflexivity).
    destruct H as (out & w' & H).
    destruct (Hf _ _ _ _ _ _ H)
      as (l & layer & sp & x & enc & fused & we & wd & r & wd'
          & _ & _ & _ & _ & Hcat & (_ & _ & Hsize & _) & _).
    exists out, w', enc, sp, fused.
    split; [ exact H | ]. split; [ exact Hcat | exact Hsize ].
  - assert (H : exists out w',
              inference Qplus Small.tokens (Some [1%Z]) Small.multi = (Ok out, w'))
      by (eexists; eexists; vm_compute; reflexivity).
    destruct H as (out & w' & H).
    destruct (Hi _ _ _ _ H)
      as (l & layer & sp & x & enc & fused & we & wd & r & wd'
          & _ & _ & _ & _ & Hcat & (_ & _ & Hsize & _) & _).
    exists out, w', enc, sp, fused.
    split; [ exact H | ]. split; [ exact Hcat | exact Hsize ].
Defined.



(** * Further properties of the module *)

(** ** Construction *)

Section ConstructionProperties.
Context {elem : Type} (ezero : elem) `{L : Layers elem}.

(** X1.  The speaker table that the constructor builds.  A model with one
    speaker has no speaker layer.  A model with several speakers gets the
    pretrained weights as they are when a non-empty list of them is given,
    and otherwise a table of [num_speakers] rows and
    [speaker_embedding_dim] columns filled by the [normal_] draws. *)
Theorem constructor_speaker_table n_chars n_speakers r kw rng (h : gmap loc DecoderT) w :
  __init__ ezero n_chars n_speakers r kw rng h = Ok w ->
  if (1 <? n_speakers)%Z
  then if truthy (kw_speaker_embedding_weights kw)
       then exists t, kw_speaker_embedding_weights kw = Some t
                      /\ speaker_embedding (self w)
                         = Some {| weight := t; padding_idx := None |}
       else (0 <= kw_speaker_embedding_dim kw)%Z
            /\ speaker_embedding (self w)
               = Some {| weight := T2 (Z.to_nat n_speakers)
                                      (Z.to_nat (kw_speaker_embedding_dim kw))
                                      (speaker_normal rng);
                         padding_idx := None |}
  else speaker_embedding (self w) = None.
Proof.
  unfold __init__. intros H.
  apply rbind_ok in H as (emb & _ & H).
  apply rbind_ok in H as (spk & Hspk & H).
  apply rbind_ok in H as (enc & _ & H).
  apply rbind_ok in H as (dec & _ & H).
  apply rbind_ok in H as ([back h'] & _ & H).
  apply rbind_ok in H as (post & _ & H).
  injection H as <-. cbn [self speaker_embedding].
  destruct (1 <? n_speakers)%Z; [ | injection Hspk as <-; reflexivity ].
  destruct (truthy (kw_speaker_embedding_weights kw)) eqn:Ht.
  - destruct (kw_speaker_embedding_weights kw) as [t|]; [ | discriminate Ht ].
    injection Hspk as <-. exists t. split; reflexivity.
  - apply rbind_ok in Hspk as (e & He & [= <-]).
    unfold Embedding_new in He.
    destruct (Z.ltb_spec n_speakers 0); [ discriminate He | ].
    destruct (Z.ltb_spec (kw_speaker_embedding_dim kw) 0); [ discriminate He | ].
    cbn in He. injection He as <-. split; [ assumption | reflexivity ].
Qed.

(** X2.  The constructor allocates its decoders at references that were free
    and leaves every module that existed before as it was: the heap after
    construction is the heap before plus the forward decoder and, with
    [bidirectional_decoder] set and only then, the backward decoder. *)
Theorem constructor_allocates_new_modules
    n_chars n_speakers r kw rng (h : gmap loc DecoderT) w :
  __init__ ezero n_chars n_speakers r kw rng h = Ok w ->
  h !! decoder (self w) = None
  /\ (forall l, is_Some (h !! l) -> heap w !! l = h !! l)
  /\ match decoder_backward (self w) with
     | Some lb => kw_bidirectional_decoder kw = true
                  /\ h !! lb = None /\ lb <> decoder (self w)
                  /\ dom (heap w) = {[lb]} ∪ ({[decoder (self w)]} ∪ dom h)
     | None => kw_bidirectional_decoder kw = false
               /\ dom (heap w) = {[decoder (self w)]} ∪ dom h
     end.
Proof.
  unfold __init__. intros H.
  apply rbind_ok in H as (emb & _ & H).
  apply rbind_ok in H as (spk & _ & H).
  apply rbind_ok in H as (enc & _ & H).
  apply rbind_ok in H as (dec & _ & H).
  apply rbind_ok in H as ([back h'] & Hback & H).
  apply rbind_ok in H as (post & _ & H).
  injection H as <-. cbn [self heap decoder decoder_backward].
  assert (Hfresh : h !! fresh (dom h) = None)
    by (apply not_elem_of_dom, is_fresh).
  split; [ exact Hfresh | ].
  destruct (kw_bidirectional_decoder kw).
  - apply rbind_ok in Hback as ([lb h''] & Hcopy & [= <- <-]).
    apply deepcopy_spec in Hcopy as (d & _ & Hnone & Hne & _ & _ & ->).
    split.
    + intros l [x Hx].
      rewrite !lookup_insert_ne; [ reflexivity | congruence | ].
      intros <-. rewrite lookup_insert_ne in Hnone by congruence. congruence.
    + repeat split; try assumption.
      * rewrite lookup_insert_ne in Hnone by congruence. exact Hnone.
      * rewrite !dom_insert_L. reflexivity.
  - injection Hback as <- <-. split.
    + intros l [x Hx]. rewrite lookup_insert_ne; [ reflexivity | congruence ].
    + split; [ reflexivity | apply dom_insert_L ].
Qed.
End ConstructionProperties.

Lemma constructor_speaker_table_witness :
  speaker_embedding (self Small.multi)
  = Some {| weight := T2 2 512 (fun i _ => (Z.of_nat (S i) # 10)%Q);
            padding_idx := None |}.
Proof.
  destruct (constructor_speaker_table multi_is_constructed) as [_ H].
  exact H.
Defined.

Lemma constructor_allocates_new_modules_witness :
  decoder_backward (self Small.multi) = Some 1
  /\ dom (heap Small.multi) = {[1]} ∪ ({[decoder (self Small.multi)]} ∪ dom (∅ : gmap nat Q)).
Proof.
  destruct (constructor_allocates_new_modules multi_is_constructed) as (_ & _ & H).
  split; [ reflexivity | ].
  change (decoder_backward (self Small.multi)) with (Some 1) in H.
  apply H.
Defined.

(** ** The speaker step and the fusion helpers *)

Section SpeakerProperties.
Context {elem : Type} (eadd : elem -> elem -> elem) `{L : Layers elem}.
Local Open Scope call_scope.

Lemma index_ok_spec (layer : Embedding elem) i :
  index_ok layer i = true <-> (0 <= i < Z.of_nat (rows (weight layer)))%Z.
Proof.
  unfold index_ok. rewrite andb_true_iff, Z.leb_le, Z.ltb_lt. reflexivity.
Qed.

(** X3.  A speaker step that returns, on a model with a speaker layer and with
    ids given: every id is a row of the speaker table, and the cache holds
    one vector per sample, at a single time position, which is the table
    row of that sample's id.  Nothing else of the state has changed. *)
Theorem speaker_vectors_are_table_rows layer ids w w' :
  speaker_embedding (self w) = Some layer ->
  compute_speaker_embedding (Some ids) w = (Ok tt, w') ->
  Forall (fun i => (0 <= i < Z.of_nat (rows (weight layer)))%Z) ids
  /\ heap w' = heap w
  /\ attrs_of w' = attrs_of w
  /\ exists s,
       speaker_embeddings (self w') = Some s
       /\ size0 s = length ids /\ size1 s = 1 /\ size2 s = cols (weight layer)
       /\ forall b j, at3 s b 0 j = at2 (weight layer) (Z.to_nat (nth b ids 0%Z)) j.
Proof.
  intros Hlayer H.
  rewrite (compute_speaker_embedding_given _ Hlayer) in H.
  unfold Embedding_call1 in H.
  destruct (forallb (index_ok layer) ids) eqn:Hall; [ | discriminate H ].
  injection H as <-. split.
  - apply Forall_forall. intros i Hi. apply index_ok_spec.
    rewrite forallb_forall in Hall. apply Hall, list_elem_of_In, Hi.
  - split; [ reflexivity | ]. split; [ reflexivity | ].
    eexists. split; [ reflexivity | ]. repeat split.
Qed.

(** X4.  A speaker id outside the table: the speaker step raises the look-up's
    [IndexError] and assigns nothing; the cache and the rest of the state
    are as before the call. *)
Theorem bad_speaker_id_leaves_the_state layer ids w :
  speaker_embedding (self w) = Some layer ->
  Exists (fun i => ~ (0 <= i < Z.of_nat (rows (weight layer)))%Z) ids ->
  compute_speaker_embedding (Some ids) w
  = (Raise (IndexError "index out of range in self"), w).
Proof.
  intros Hlayer Hbad.
  rewrite (compute_speaker_embedding_given _ Hlayer).
  unfold Embedding_call1.
  destruct (forallb (index_ok layer) ids) eqn:Hall; [ exfalso | reflexivity ].
  rewrite forallb_forall in Hall.
  apply Exists_exists in Hbad as (i & Hi & Hout).
  apply Hout, index_ok_spec, Hall, list_elem_of_In, Hi.
Qed.

(** X5.  When the concatenation goes through.  The cached vector must not be
    [None]; its batch size must be that of the encoder output or 1, and its
    number of time positions that of the encoder output or 1.  In every
    other case the helper raises. *)
Theorem concat_speaker_embedding_succeeds_iff (x s : tensor3 elem) :
  _concat_speaker_embedding x None = Raise none_has_no_expand
  /\ (is_ok (_concat_speaker_embedding x (Some s)) = true
      <-> (size0 s = size0 x \/ size0 s = 1) /\ (size1 s = size1 x \/ size1 s = 1)).
Proof.
  split; [ reflexivity | ].
  unfold _concat_speaker_embedding, expand, cat_last.
  destruct (Nat.eqb_spec (size0 s) (size0 x)), (Nat.eqb_spec (size0 s) 1),
    (Nat.eqb_spec (size1 s) (size1 x)), (Nat.eqb_spec (size1 s) 1);
    cbn [orb andb size0 size1 is_ok]; rewrite ?Nat.eqb_refl; cbn [andb is_ok];
    split; intros H; try discriminate H; try reflexivity;
    try (split; auto); destruct H as [[?|?] [?|?]]; congruence.
Qed.

(** X6.  The additive helper.  On a speaker vector with one time position, the
    feature width of the encoder output and a batch size that is the
    encoder output's or 1, it returns a tensor of the shape of the encoder
    output in which the vector of each sample has been added at every time
    position. *)
Theorem add_speaker_embedding_adds_the_vector (x s : tensor3 elem) :
  size1 s = 1 -> size2 s = size2 x -> (size0 s = size0 x \/ size0 s = 1) ->
  exists out,
    _add_speaker_embedding eadd x (Some s) = Ok out
    /\ size0 out = size0 x /\ size1 out = size1 x /\ size2 out = size2 x
    /\ forall b t k, b < size0 x -> t < size1 x -> k < size2 x ->
         at3 out b t k
         = eadd (at3 x b t k) (at3 s (if size0 s =? 1 then 0 else b) 0 k).
Proof.
  intros H1 H2 H0. unfold _add_speaker_embedding, expand.
  assert (Hc : ((size0 s =? size0 x) || (size0 s =? 1))
               && ((size1 s =? size1 x) || (size1 s =? 1)) = true).
  { apply andb_true_iff. split; apply orb_true_iff.
    - destruct H0 as [H0|H0]; [ left | right ]; apply Nat.eqb_eq, H0.
    - right. apply Nat.eqb_eq, H1. }
  rewrite Hc.
  destruct (add3 eadd x _) as [out|e] eqn:Hadd.
  - destruct (add3_same_shape Hadd) as (E0 & E1 & E2 & Hat);
      [ reflexivity | reflexivity | symmetry; exact H2 | ].
    exists out. repeat (split; [ first [ reflexivity | assumption ] | ]).
    intros b t k Hb Ht Hk. rewrite (Hat b t k Hb Ht Hk).
    cbn [at3]. rewrite H1. reflexivity.
  - unfold add3 in Hadd. cbn [size0 size1 size2] in Hadd.
    rewrite H2, !broadcast_dim_same in Hadd. discriminate Hadd.
Qed.

(** X7.  Applying [shape_outputs] to its own mel outputs gives the tensors it
    started from: the exchange of the last two axes undoes itself. *)
Theorem shape_outputs_twice (mel_outputs mel_outputs_postnet alignments : tensor3 elem) :
  let '(a, b, c) := shape_outputs mel_outputs mel_outputs_postnet alignments in
  shape_outputs a b c = (mel_outputs, mel_outputs_postnet, alignments).
Proof.
  unfold shape_outputs. cbv zeta beta iota.
  rewrite !transpose12_involutive. reflexivity.
Qed.
End SpeakerProperties.

(** ** The calls *)

Section CallProperties.
Context {elem : Type} (eadd : elem -> elem -> elem) `{L : Layers elem}.
Local Open Scope call_scope.

Lemma run_postnet_cache f w r w' :
  run_postnet f w = (r, w') ->
  speaker_embeddings (self w') = speaker_embeddings (self w).
Proof.
  unfold run_postnet. destruct (f _) as [r0 p']. intros [= _ <-]. reflexivity.
Qed.

Lemma keeps_pair {X Y A} (o1 : World -> X) (o2 : World -> Y) (c : M A) :
  keeps o1 c -> keeps o2 c -> keeps (fun w => (o1 w, o2 w)) c.
Proof. intros H1 H2 w. rewrite (H1 w), (H2 w). reflexivity. Qed.

(** An observation survives a sequence from [w] when it survives the first
    step and, after it, the rest. *)
Lemma bind_keeps_at {X A B} (obs : World -> X) (c : M A) (k : A -> M B) w :
  keeps obs c ->
  (forall a w1, c w = (Ok a, w1) -> obs w1 = obs w -> obs (snd (k a w1)) = obs w1) ->
  obs (snd (bind c k w)) = obs w.
Proof.
  intros Hc Hk. unfold bind. specialize (Hc w).
  destruct (c w) as [[a|e] w1]; cbn [snd] in *.
  - rewrite (Hk a w1 eq_refl Hc). exact Hc.
  - exact Hc.
Qed.

(** X8.  With [bidirectional_decoder] set, [forward] needs the target frames:
    called with [mel_specs] left at its default [None] it never returns,
    whatever the collaborators do. *)
Theorem forward_bidirectional_needs_the_target ch tl ids w :
  bidirectional_decoder (self w) = true ->
  exists e, fst (forward eadd ch tl None ids w) = Raise e.
Proof.
  intros Hbi.
  destruct (forward eadd ch tl None ids w) as [[out|e] w'] eqn:H;
    [ exfalso | exists e; reflexivity ].
  destruct (forward_inv H)
    as (emb & w1 & enc & w2 & fused & raw & al & st & w3 & pn & w4 & sum
        & _ & _ & _ & _ & _ & _ & _ & _ & _ & Hout).
  rewrite Hbi in Hout. destruct Hout as (dob & ab & Hback & _).
  destruct (backward_inference_inv Hback) as (lb & t & rb & sb & _ & Hmel & _).
  discriminate Hmel.
Qed.

(** X9.  [inference_truncated] never runs a decoder or the postnet: on every
    input, however the call ends, the heap of decoder modules and the
    postnet are as they were, and so are the attributes that the
    constructor assigned. *)
Theorem inference_truncated_runs_no_decoder text ids w :
  heap (snd (inference_truncated eadd text ids w)) = heap w
  /\ postnet (self (snd (inference_truncated eadd text ids w))) = postnet (self w)
  /\ attrs_of (snd (inference_truncated eadd text ids w)) = attrs_of w.
Proof.
  split; [ | split; [ | apply keeps_attrs_inference_truncated ] ].
  - rewrite inference_truncated_run.
    destruct (compute_speaker_embedding ids w) as [[u|e] w1] eqn:E1;
      destruct (compute_speaker_embedding_modules E1) as (Hh & _ & _);
      [ | exact Hh ].
    destruct (Embedding_call (embedding (self w1)) text) as [emb|e]; [ | exact Hh ].
    unfold run_encoder. destruct (Encoder_inference_truncated _ _) as [[enc|e] e'];
      [ | exact Hh ].
    match goal with |- context [fuse_speaker ?x ?v] =>
      destruct (fuse_speaker x v) as [[fused|e] w3] eqn:E3;
      pose proof (fuse_speaker_state E3); subst w3; exact Hh end.
  - rewrite inference_truncated_run.
    destruct (compute_speaker_embedding ids w) as [[u|e] w1] eqn:E1;
      destruct (compute_speaker_embedding_modules E1) as (_ & Hp & _);
      [ | exact Hp ].
    destruct (Embedding_call (embedding (self w1)) text) as [emb|e]; [ | exact Hp ].
    unfold run_encoder. destruct (Encoder_inference_truncated _ _) as [[enc|e] e'];
      [ | exact Hp ].
    match goal with |- context [fuse_speaker ?x ?v] =>
      destruct (fuse_speaker x v) as [[fused|e] w3] eqn:E3;
      pose proof (fuse_speaker_state E3); subst w3; exact Hp end.
Qed.

(** X10.  No call reassigns what the constructor assigned: whether they return or
    raise, [forward], [inference] and [inference_truncated] leave the number
    of speakers, the bidirectional flag, the two embedding tables and the
    two decoder references as they were.  In particular a model keeps
    having a speaker layer exactly when it has several speakers. *)
Theorem calls_keep_the_constructor_attributes ch tl mel ids w :
  attrs_of (snd (forward eadd ch tl mel ids w)) = attrs_of w
  /\ attrs_of (snd (inference eadd ch ids w)) = attrs_of w
  /\ attrs_of (snd (inference_truncated eadd ch ids w)) = attrs_of w
  /\ (wf (snd (forward eadd ch tl mel ids w)) <-> wf w)
  /\ (wf (snd (inference eadd ch ids w)) <-> wf w)
  /\ (wf (snd (inference_truncated eadd ch ids w)) <-> wf w).
Proof.
  pose proof (keeps_attrs_forward eadd ch tl mel ids w) as Hf.
  pose proof (keeps_attrs_inference eadd ch ids w) as Hi.
  pose proof (keeps_attrs_inference_truncated eadd ch ids w) as Ht.
  cbv beta in Hf, Hi, Ht.
  repeat (split; [ assumption | ]).
  unfold wf, hasattr_speaker_embedding.
  destruct (attrs_fields Hf) as (-> & _ & _ & -> & _).
  destruct (attrs_fields Hi) as (-> & _ & _ & -> & _).
  destruct (attrs_fields Ht) as (-> & _ & _ & -> & _).
  repeat split; intros H; exact H.
Qed.

Lemma keeps_cell_fuse_speaker l x : keeps (cell l) (fuse_speaker x).
Proof. unfold fuse_speaker. keeps_tac. Qed.

(** X11.  [inference] runs the forward decoder and no other: however the call
    ends, every other decoder module, the backward decoder of a
    bidirectional model among them, is as it was. *)
Theorem inference_leaves_the_other_decoders ch ids w l :
  l <> decoder (self w) ->
  heap (snd (inference eadd ch ids w)) !! l = heap w !! l.
Proof.
  intros Hl.
  assert (H : (fun v => (cell l v, attrs_of v)) (snd (inference eadd ch ids w))
              = (fun v => (cell l v, attrs_of v)) w);
    [ | injection H as H _; exact H ].
  unfold inference, _init_states.
  apply (bind_keeps_at (obs := fun v => (cell l v, attrs_of v))); [ apply keeps_pair; solve [auto with frame] | intros m w1 E _ ].
  read_inv E.
  apply (bind_keeps_at (obs := fun v => (cell l v, attrs_of v))); [ apply keeps_pair; solve [auto with frame] | intros emb w1 E _ ].
  lift_inv E as Hemb.
  apply (bind_keeps_at (obs := fun v => (cell l v, attrs_of v))); [ apply keeps_pair; solve [auto with frame] | intros u1 w1 _ Ho1 ].
  apply (bind_keeps_at (obs := fun v => (cell l v, attrs_of v)));
    [ apply keeps_pair;
      [ apply keeps_cell_compute_speaker_embedding
      | apply keeps_attrs_compute_speaker_embedding ]
    | intros u2 w2 _ Ho2 ].
  apply (bind_keeps_at (obs := fun v => (cell l v, attrs_of v))); [ apply keeps_pair; solve [auto with frame] | intros enc w3 _ Ho3 ].
  apply (bind_keeps_at (obs := fun v => (cell l v, attrs_of v)));
    [ apply keeps_pair; [ apply keeps_cell_fuse_speaker | apply keeps_attrs_fuse_speaker ]
    | intros fused w4 _ Ho4 ].
  apply (bind_keeps_at (obs := fun v => (cell l v, attrs_of v))); [ apply keeps_pair; solve [auto with frame] | intros m w5 E _ ].
  read_inv E.
  assert (Hd : decoder (self w4) <> l).
  { assert (Ha : attrs_of w4 = attrs_of w) by congruence.
    destruct (attrs_fields Ha) as (_ & _ & _ & _ & -> & _). congruence. }
  apply (bind_keeps_at (obs := fun v => (cell l v, attrs_of v)));
    [ apply keeps_pair; [ apply keeps_cell_with_decoder, Hd | auto with frame ]
    | intros [[raw al] st] w6 _ _ ].
  apply (bind_keeps_at (obs := fun v => (cell l v, attrs_of v))); [ apply keeps_pair; solve [auto with frame] | intros pn w7 _ _ ].
  apply (bind_keeps_at (obs := fun v => (cell l v, attrs_of v))); [ apply keeps_pair; solve [auto with frame] | intros sum w8 _ _ ].
  reflexivity.
Qed.

(** What a returning [forward] call did about the speaker, on a model with
    a speaker layer and several speakers. *)
Lemma forward_speaker_steps ch tl mel ids w out w' :
  hasattr_speaker_embedding (self w) = true ->
  (1 <? num_speakers (self w))%Z = true ->
  forward eadd ch tl mel ids w = (Ok out, w') ->
  exists l layer sp emb enc fused w2 r w3,
    ids = Some l /\ speaker_embedding (self w) = Some layer
    /\ Embedding_call1 layer l = Ok sp
    /\ run_encoder (fun e => Encoder_call e (transpose12 emb) tl)
         (with_cache (Some (unsqueeze1 sp)) w) = (Ok enc, w2)
    /\ _concat_speaker_embedding enc (Some (unsqueeze1 sp)) = Ok fused
    /\ with_decoder (decoder (self w))
         (fun d => Decoder_call d fused mel (sequence_mask tl)) w2 = (Ok r, w3)
    /\ speaker_embeddings (self w') = Some (unsqueeze1 sp).
Proof.
  intros Hhas Hltb H.
  destruct (forward_inv H)
    as (emb & w1 & enc & w2 & fused & raw & al & st & w3 & pn & w4 & sum
        & _ & Hspk & Henc & Hfuse & Hdec & Hpost & _ & A2 & _ & Hout).
  destruct (compute_speaker_embedding_ok (w := with_cache None w) Hhas Hspk)
    as (l & layer & sp & -> & Hlayer & Hsp & ->).
  destruct (attrs_fields A2) as (En & _).
  rewrite fuse_speaker_multi in Hfuse by (rewrite En; exact Hltb).
  pose proof (run_encoder_cache Henc) as Hc2.
  rewrite Hc2 in Hfuse.
  cbn [with_cache self speaker_embeddings set_speaker_embeddings] in Hfuse, Hc2.
  injection Hfuse as Hfuse.
  exists l, layer, sp, emb, enc, fused, w2, (raw, al, st), w3.
  repeat (split; [ first [ assumption | reflexivity ] | ]).
  assert (Hc4 : speaker_embeddings (self w4) = Some (unsqueeze1 sp)).
  { rewrite (run_postnet_cache Hpost), (with_decoder_self Hdec). exact Hc2. }
  destruct (bidirectional_decoder (self w)).
  - destruct Hout as (dob & ab & Hback & _).
    destruct (backward_inference_inv Hback) as (lb & t & rb & sb & _ & _ & Hrun & _).
    rewrite (with_decoder_self Hrun). exact Hc4.
  - destruct Hout as [_ ->]. exact Hc4.
Qed.

(** X12.  After a [forward] call that returns, the speaker cache holds what this
    call computed: on a model with several speakers, the table rows of the
    speaker ids of this call (which were given, or the call would not have
    returned); on a model with one speaker, [None]. *)
Theorem forward_leaves_this_calls_vector ch tl mel ids w out w' :
  wf w ->
  forward eadd ch tl mel ids w = (Ok out, w') ->
  if (1 <? num_speakers (self w))%Z
  then exists l layer sp,
         ids = Some l /\ speaker_embedding (self w) = Some layer
         /\ Embedding_call1 layer l = Ok sp
         /\ speaker_embeddings (self w') = Some (unsqueeze1 sp)
  else speaker_embeddings (self w') = None.
Proof.
  intros Hwf H. unfold wf in Hwf.
  destruct (1 <? num_speakers (self w))%Z eqn:Hltb.
  - destruct (forward_speaker_steps Hwf Hltb H)
      as (l & layer & sp & emb & enc & fused & w2 & r & w3
          & Hids & Hlayer & Hsp & _ & _ & _ & Hcache).
    exists l, layer, sp. repeat (split; [ assumption | ]). exact Hcache.
  - destruct (forward_inv H)
      as (emb & w1 & enc & w2 & fused & raw & al & st & w3 & pn & w4 & sum
          & _ & Hspk & Henc & _ & Hdec & Hpost & _ & _ & _ & Hout).
    rewrite (compute_speaker_embedding_single ids (w := with_cache None w) Hwf) in Hspk.
    injection Hspk as <-.
    assert (Hc4 : speaker_embeddings (self w4) = None).
    { rewrite (run_postnet_cache Hpost), (with_decoder_self Hdec),
        (run_encoder_cache Henc). reflexivity. }
    destruct (bidirectional_decoder (self w)).
    + destruct Hout as (dob & ab & Hback & _).
      destruct (backward_inference_inv Hback) as (lb & t & rb & sb & _ & _ & Hrun & _).
      rewrite (with_decoder_self Hrun). exact Hc4.
    + destruct Hout as [_ ->]. exact Hc4.
Qed.

(** X13.  On a model with one speaker nothing is fused: the decoder receives the
    encoder output as the encoder returned it, in [forward] and in
    [inference], whatever speaker ids are passed. *)
Theorem single_speaker_decoder_gets_the_encoder_output w :
  (num_speakers (self w) <= 1)%Z ->
  (forall ch tl mel ids out w',
     forward eadd ch tl mel ids w = (Ok out, w') ->
     exists x we enc wd r wd',
       run_encoder (fun e => Encoder_call e x tl) we = (Ok enc, wd)
       /\ with_decoder (decoder (self w))
            (fun d => Decoder_call d enc mel (sequence_mask tl)) wd = (Ok r, wd'))
  /\ (forall ch ids out w',
     inference eadd ch ids w = (Ok out, w') ->
     exists x we enc wd r wd',
       run_encoder (fun e => Encoder_inference e x) we = (Ok enc, wd)
       /\ with_decoder (decoder (self w)) (fun d => Decoder_inference d enc) wd
          = (Ok r, wd')).
Proof.
  intros Hone.
  assert (Hltb : (1 <? num_speakers (self w))%Z = false) by (apply Z.ltb_ge, Hone).
  split.
  - intros ch tl mel ids out w' H.
    destruct (forward_inv H)
      as (emb & w1 & enc & w2 & fused & raw & al & st & w3 & pn & w4 & sum
          & _ & _ & Henc & Hfuse & Hdec & _ & _ & A2 & _ & _).
    destruct (attrs_fields A2) as (En & _).
    rewrite fuse_speaker_single in Hfuse by (rewrite En; exact Hltb).
    injection Hfuse as <-.
    exists (transpose12 emb), w1, enc, w2, (raw, al, st), w3.
    split; assumption.
  - intros ch ids out w' H.
    destruct (inference_inv H)
      as (emb & w1 & enc & w2 & fused & raw & al & st & w3 & pn & sum
          & _ & _ & Henc & Hfuse & Hdec & _ & _ & A2 & _).
    destruct (attrs_fields A2) as (En & _).
    rewrite fuse_speaker_single in Hfuse by (rewrite En; exact Hltb).
    injection Hfuse as <-.
    exists (transpose12 emb), w1, enc, w2, (raw, al, st), w3.
    split; assumption.
Qed.
End CallProperties.

(** ** The constructor and the calls together *)

Section WidthProperties.
Context {elem : Type} (ezero : elem) (eadd : elem -> elem -> elem) `{L : Layers elem}.
Local Open Scope call_scope.

(** The decoder that the constructor builds, and where it puts it. *)
Lemma init_decoder n_chars n_speakers r kw rng (h : gmap loc DecoderT) w :
  __init__ ezero n_chars n_speakers r kw rng h = Ok w ->
  exists dec,
    Decoder (if (1 <? n_speakers)%Z then (512 + kw_speaker_embedding_dim kw)%Z else 512%Z)
      (kw_decoder_output_dim kw) r (kw_attn_type kw) (kw_attn_win kw)
      (kw_attn_norm kw) (kw_prenet_type kw) (kw_prenet_dropout kw)
      (kw_forward_attn kw) (kw_trans_agent kw) (kw_forward_attn_mask kw)
      (kw_location_attn kw) (kw_attn_K kw) (kw_separate_stopnet kw) = Ok dec
    /\ heap w !! decoder (self w) = Some dec.
Proof.
  unfold __init__. intros H.
  apply rbind_ok in H as (emb & _ & H).
  apply rbind_ok in H as (spk & _ & H).
  apply rbind_ok in H as (enc & _ & H).
  apply rbind_ok in H as (dec & Hdec & H).
  apply rbind_ok in H as ([back h'] & Hback & H).
  apply rbind_ok in H as (post & _ & H).
  injection H as <-. cbn [self heap decoder].
  exists dec. split; [ exact Hdec | ].
  destruct (kw_bidirectional_decoder kw).
  - apply rbind_ok in Hback as ([lb h''] & Hcopy & [= <- <-]).
    apply deepcopy_spec in Hcopy as (d & Hd & _ & _ & _ & Hld & _).
    rewrite lookup_insert_eq in Hd. injection Hd as <-. exact Hld.
  - injection Hback as <- <-. apply lookup_insert_eq.
Qed.

(** The speaker table of a model built without pretrained weights. *)
Lemma init_fresh_speaker_table n_chars n_speakers r kw rng (h : gmap loc DecoderT) w :
  __init__ ezero n_chars n_speakers r kw rng h = Ok w ->
  (1 <? n_speakers)%Z = true ->
  truthy (kw_speaker_embedding_weights kw) = false ->
  (0 <= kw_speaker_embedding_dim kw)%Z
  /\ exists layer, speaker_embedding (self w) = Some layer
                   /\ cols (weight layer) = Z.to_nat (kw_speaker_embedding_dim kw).
Proof.
  unfold __init__. intros H Hm Ht.
  apply rbind_ok in H as (emb & _ & H).
  apply rbind_ok in H as (spk & Hspk & H).
  apply rbind_ok in H as (enc & _ & H).
  apply rbind_ok in H as (dec & _ & H).
  apply rbind_ok in H as ([back h'] & _ & H).
  apply rbind_ok in H as (post & _ & H).
  injection H as <-. cbn [self speaker_embedding].
  rewrite Hm, Ht in Hspk.
  apply rbind_ok in Hspk as (e & He & [= <-]).
  unfold Embedding_new in He.
  destruct (Z.ltb_spec n_speakers 0); [ discriminate He | ].
  destruct (Z.ltb_spec (kw_speaker_embedding_dim kw) 0); [ discriminate He | ].
  cbn in He. injection He as <-. split; [ assumption | ].
  eexists. split; reflexivity.
Qed.

(** X14.  The width the decoder is built for is the width [forward] feeds it.  On
    a model with several speakers and no pretrained speaker weights the
    constructor builds the decoder for 512 + [speaker_embedding_dim] input
    features, and in every later [forward] call that returns, the tensor
    handed to the decoder is [speaker_embedding_dim] features wider than
    the encoder output: 512 + [speaker_embedding_dim] when the encoder
    returns 512 features. *)
Theorem decoder_is_built_for_the_fused_width
    n_chars n_speakers r kw rng (h : gmap loc DecoderT) w :
  __init__ ezero n_chars n_speakers r kw rng h = Ok w ->
  (1 < n_speakers)%Z ->
  truthy (kw_speaker_embedding_weights kw) = false ->
  (exists dec,
     Decoder (512 + kw_speaker_embedding_dim kw)%Z
       (kw_decoder_output_dim kw) r (kw_attn_type kw) (kw_attn_win kw)
       (kw_attn_norm kw) (kw_prenet_type kw) (kw_prenet_dropout kw)
       (kw_forward_attn kw) (kw_trans_agent kw) (kw_forward_attn_mask kw)
       (kw_location_attn kw) (kw_attn_K kw) (kw_separate_stopnet kw) = Ok dec
     /\ heap w !! decoder (self w) = Some dec)
  /\ forall v ch tl mel ids out v',
       attrs_of v = attrs_of w ->
       forward eadd ch tl mel ids v = (Ok out, v') ->
       exists x we enc fused wd res wd',
         run_encoder (fun e => Encoder_call e x tl) we = (Ok enc, wd)
         /\ with_decoder (decoder (self w))
              (fun d => Decoder_call d fused mel (sequence_mask tl)) wd = (Ok res, wd')
         /\ Z.of_nat (size2 fused)
            = (Z.of_nat (size2 enc) + kw_speaker_embedding_dim kw)%Z
         /\ (size2 enc = 512 ->
             Z.of_nat (size2 fused) = (512 + kw_speaker_embedding_dim kw)%Z).
Proof.
  intros Hinit Hmulti Ht.
  assert (Hltb : (1 <? n_speakers)%Z = true) by (apply Z.ltb_lt, Hmulti).
  split.
  - destruct (init_decoder Hinit) as (dec & Hdec & Hcell).
    rewrite Hltb in Hdec. exists dec. split; assumption.
  - intros v ch tl mel ids out v' Hattrs H.
    destruct (init_fresh_speaker_table Hinit Hltb Ht) as (Hdim & layer0 & Hlayer0 & Hcols).
    destruct (init_inv Hinit) as (Hn & _).
    destruct (attrs_fields Hattrs) as (En & _ & _ & Es & Ed & _).
    assert (Hhas : hasattr_speaker_embedding (self v) = true)
      by (unfold hasattr_speaker_embedding; rewrite Es, Hlayer0; reflexivity).
    assert (Hltv : (1 <? num_speakers (self v))%Z = true) by (rewrite En, Hn; exact Hltb).
    destruct (forward_speaker_steps Hhas Hltv H)
      as (l & layer & sp & emb & enc & fused & w2 & res & w3
          & _ & Hlayer & Hsp & Henc & Hcat & Hdec & _).
    rewrite Ed in Hdec.
    exists (transpose12 emb), (with_cache (Some (unsqueeze1 sp)) v), enc, fused, w2, res, w3.
    split; [ exact Henc | ]. split; [ exact Hdec | ].
    assert (Hw : size2 fused = size2 enc + Z.to_nat (kw_speaker_embedding_dim kw)).
    { destruct (concat_speaker_embedding_layout (s := unsqueeze1 sp) eq_refl Hcat)
        as (_ & _ & Hsize & _).
      rewrite Hsize. cbn [unsqueeze1 size2]. f_equal.
      unfold Embedding_call1 in Hsp.
      destruct (forallb (index_ok layer) l); [ | discriminate Hsp ].
      injection Hsp as <-. cbn [cols].
      rewrite Es, Hlayer0 in Hlayer. injection Hlayer as <-. exact Hcols. }
    split; [ | intros H512 ]; rewrite Hw; lia.
Qed.
End WidthProperties.

Section PretrainedWidth.
Context {elem : Type} (ezero : elem) (eadd : elem -> elem -> elem) `{L : Layers elem}.
Local Open Scope call_scope.

(** The speaker table of a model built from pretrained weights. *)
Lemma init_pretrained_speaker_table
    n_chars n_speakers r kw rng (h : gmap loc DecoderT) w t :
  __init__ ezero n_chars n_speakers r kw rng h = Ok w ->
  (1 <? n_speakers)%Z = true ->
  kw_speaker_embedding_weights kw = Some t -> rows t <> 0 ->
  speaker_embedding (self w) = Some {| weight := t; padding_idx := None |}.
Proof.
  unfold __init__. intros H Hm Ht Hrows.
  apply rbind_ok in H as (emb & _ & H).
  apply rbind_ok in H as (spk & Hspk & H).
  apply rbind_ok in H as (enc & _ & H).
  apply rbind_ok in H as (dec & _ & H).
  apply rbind_ok in H as ([back h'] & _ & H).
  apply rbind_ok in H as (post & _ & H).
  injection H as <-. cbn [self speaker_embedding].
  rewrite Hm, Ht in Hspk. unfold truthy in Hspk.
  destruct (Nat.eqb_spec (rows t) 0); [ contradiction | ].
  cbn in Hspk. injection Hspk as <-. reflexivity.
Qed.

(** X15.  Pretrained speaker weights are taken with the width they have.  The
    constructor still builds the decoder for 512 + [speaker_embedding_dim]
    input features, and it does not compare that keyword with the
    weights: in every later [forward] call that returns, the tensor handed
    to the decoder is wider than the encoder output by the number of
    columns of the pretrained weights. *)
Theorem pretrained_weights_set_the_fused_width
    n_chars n_speakers r kw rng (h : gmap loc DecoderT) w t :
  __init__ ezero n_chars n_speakers r kw rng h = Ok w ->
  (1 < n_speakers)%Z ->
  kw_speaker_embedding_weights kw = Some t -> rows t <> 0 ->
  (exists dec,
     Decoder (512 + kw_speaker_embedding_dim kw)%Z
       (kw_decoder_output_dim kw) r (kw_attn_type kw) (kw_attn_win kw)
       (kw_attn_norm kw) (kw_prenet_type kw) (kw_prenet_dropout kw)
       (kw_forward_attn kw) (kw_trans_agent kw) (kw_forward_attn_mask kw)
       (kw_location_attn kw) (kw_attn_K kw) (kw_separate_stopnet kw) = Ok dec
     /\ heap w !! decoder (self w) = Some dec)
  /\ forall v ch tl mel ids out v',
       attrs_of v = attrs_of w ->
       forward eadd ch tl mel ids v = (Ok out, v') ->
       exists x we enc fused wd res wd',
         run_encoder (fun e => Encoder_call e x tl) we = (Ok enc, wd)
         /\ with_decoder (decoder (self w))
              (fun d => Decoder_call d fused mel (sequence_mask tl)) wd = (Ok res, wd')
         /\ size2 fused = size2 enc + cols t.
Proof.
  intros Hinit Hmulti Ht Hrows.
  assert (Hltb : (1 <? n_speakers)%Z = true) by (apply Z.ltb_lt, Hmulti).
  split.
  - destruct (init_decoder Hinit) as (dec & Hdec & Hcell).
    rewrite Hltb in Hdec. exists dec. split; assumption.
  - intros v ch tl mel ids out v' Hattrs H.
    pose proof (init_pretrained_speaker_table Hinit Hltb Ht Hrows) as Hlayer0.
    destruct (init_inv Hinit) as (Hn & _).
    destruct (attrs_fields Hattrs) as (En & _ & _ & Es & Ed & _).
    assert (Hhas : hasattr_speaker_embedding (self v) = true)
      by (unfold hasattr_speaker_embedding; rewrite Es, Hlayer0; reflexivity).
    assert (Hltv : (1 <? num_speakers (self v))%Z = true) by (rewrite En, Hn; exact Hltb).
    destruct (forward_speaker_steps Hhas Hltv H)
      as (l & layer & sp & emb & enc & fused & w2 & res & w3
          & _ & Hlayer & Hsp & Henc & Hcat & Hdec & _).
    rewrite Ed in Hdec.
    exists (transpose12 emb), (with_cache (Some (unsqueeze1 sp)) v), enc, fused, w2, res, w3.
    split; [ exact Henc | ]. split; [ exact Hdec | ].
    destruct (concat_speaker_embedding_layout (s := unsqueeze1 sp) eq_refl Hcat)
      as (_ & _ & Hsize & _).
    rewrite Hsize. cbn [unsqueeze1 size2]. f_equal.
    unfold Embedding_call1 in Hsp.
    destruct (forallb (index_ok layer) l); [ | discriminate Hsp ].
    injection Hsp as <-. cbn [cols].
    rewrite Es, Hlayer0 in Hlayer. injection Hlayer as <-. reflexivity.
Qed.
End PretrainedWidth.

(** ** The further properties on the small instance *)

Lemma speaker_vectors_are_table_rows_witness :
  exists w' s,
    compute_speaker_embedding (Some [1%Z]) Small.multi = (Ok tt, w')
    /\ speaker_embeddings (self w') = Some s
    /\ size0 s = 1 /\ size1 s = 1 /\ size2 s = 512.
Proof.
  assert (H : exists w', compute_speaker_embedding (Some [1%Z]) Small.multi = (Ok tt, w'))
    by (eexists; vm_compute; reflexivity).
  destruct H as (w' & H).
  destruct (speaker_vectors_are_table_rows (w := Small.multi) eq_refl H)
    as (_ & _ & _ & s & Hs & H0 & H1 & H2 & _).
  exists w', s. repeat (split; [ assumption | ]). exact H2.
Defined.

Lemma bad_speaker_id_leaves_the_state_witness :
  compute_speaker_embedding (Some [1%Z; 5%Z])
    (with_cache (Some Small.earlier_vector) Small.multi)
  = (Raise (IndexError "index out of range in self"),
     with_cache (Some Small.earlier_vector) Small.multi).
Proof.
  apply (bad_speaker_id_leaves_the_state
           (w := with_cache (Some Small.earlier_vector) Small.multi) eq_refl).
  apply Exists_cons_tl, Exists_cons_hd. cbn. lia.
Defined.

Lemma add_speaker_embedding_adds_the_vector_witness :
  exists out,
    _add_speaker_embedding Qplus Small.target (Some Small.added_vector) = Ok out
    /\ size0 out = 1 /\ size1 out = 2 /\ size2 out = 80
    /\ at3 out 0 1 3 = (at3 Small.target 0 1 3 + at3 Small.added_vector 0 0 3)%Q.
Proof.
  destruct (@add_speaker_embedding_adds_the_vector Q Qplus
              Small.target Small.added_vector eq_refl eq_refl (or_introl eq_refl))
    as (out & Hout & H0 & H1 & H2 & Hat).
  exists out. repeat (split; [ assumption | ]).
  apply (Hat 0 1 3); cbn; lia.
Defined.

Lemma forward_bidirectional_needs_the_target_witness :
  exists e, fst (forward Qplus Small.tokens [4%Z] None (Some [1%Z]) Small.multi) = Raise e.
Proof.
  apply (forward_bidirectional_needs_the_target Qplus Small.tokens [4%Z] (Some [1%Z])
           (w := Small.multi)).
  reflexivity.
Defined.

Lemma inference_leaves_the_other_decoders_witness :
  heap (snd (inference Qplus Small.tokens (Some [1%Z]) Small.multi)) !! 1
  = heap Small.multi !! 1.
Proof.
  apply (inference_leaves_the_other_decoders Qplus Small.tokens (Some [1%Z])
           (w := Small.multi)).
  discriminate.
Defined.

Lemma forward_leaves_this_calls_vector_witness :
  exists out w' sp,
    forward Qplus Small.tokens [4%Z] (Some Small.target) (Some [1%Z]) Small.multi
    = (Ok out, w')
    /\ speaker_embeddings (self w') = Some (unsqueeze1 sp).
Proof.
  assert (H : exists out w',
            forward Qplus Small.tokens [4%Z] (Some Small.target) (Some [1%Z]) Small.multi
            = (Ok out, w'))
    by (eexists; eexists; vm_compute; reflexivity).
  destruct H as (out & w' & H).
  assert (Hwf : wf Small.multi) by reflexivity.
  destruct (forward_leaves_this_calls_vector Hwf H) as (l & layer & sp & _ & _ & _ & Hc).
  exists out, w', sp. split; assumption.
Defined.

Lemma single_speaker_decoder_gets_the_encoder_output_witness :
  exists out w' enc res (wd wd' : @World Q Small.layers),
    forward Qplus Small.tokens [4%Z] (Some Small.target) None Small.single = (Ok out, w')
    /\ with_decoder (decoder (self Small.single))
         (fun d => Decoder_call d enc (Some Small.target) (sequence_mask [4%Z])) wd
       = (Ok res, wd').
Proof.
  assert (H : exists out w',
            forward Qplus Small.tokens [4%Z] (Some Small.target) None Small.single
            = (Ok out, w'))
    by (eexists; eexists; vm_compute; reflexivity).
  destruct H as (out & w' & H).
  assert (Hone : (num_speakers (self Small.single) <= 1)%Z) by (vm_compute; discriminate).
  destruct (proj1 (single_speaker_decoder_gets_the_encoder_output Qplus Hone) _ _ _ _ _ _ H)
    as (x & we & enc & wd & res & wd' & _ & Hdec).
  exists out, w', enc, res, wd, wd'. split; assumption.
Defined.

Lemma decoder_is_built_for_the_fused_width_witness :
  exists out v' (enc fused : tensor3 Q),
    forward Qplus Small.tokens [4%Z] (Some Small.target) (Some [1%Z]) Small.multi
    = (Ok out, v')
    /\ Z.of_nat (size2 fused) = (Z.of_nat (size2 enc) + 512)%Z.
Proof.
  assert (H : exists out w',
            forward Qplus Small.tokens [4%Z] (Some Small.target) (Some [1%Z]) Small.multi
            = (Ok out, w'))
    by (eexists; eexists; vm_compute; reflexivity).
  destruct H as (out & v' & H).
  assert (Hm : (1 < 2)%Z) by reflexivity.
  destruct (decoder_is_built_for_the_fused_width Qplus multi_is_constructed Hm eq_refl)
    as [_ Hw].
  destruct (Hw Small.multi _ _ _ _ _ _ eq_refl H)
    as (x & we & enc & fused & wd & res & wd' & _ & _ & Hsize & _).
  exists out, v', enc, fused. split; assumption.
Defined.

Example from_pretrained_is_constructed :
  __init__ 0%Q 50 2 1 Small.pretrained Small.draws ∅ = Ok Small.from_pretrained.
Proof. reflexivity. Qed.

(** On the model built from the pretrained weights of [Small.pretrained],
    which have three columns, the decoder is fed three features more than
    the encoder returns, not the 512 of [speaker_embedding_dim]. *)
Lemma pretrained_weights_set_the_fused_width_witness :
  exists out v' (enc fused : tensor3 Q),
    forward Qplus Small.tokens [4%Z] (Some Small.target) (Some [1%Z]) Small.from_pretrained
    = (Ok out, v')
    /\ size2 fused = size2 enc + 3.
Proof.
  assert (H : exists out v',
            forward Qplus Small.tokens [4%Z] (Some Small.target) (Some [1%Z])
              Small.from_pretrained = (Ok out, v'))
    by (eexists; eexists; vm_compute; reflexivity).
  destruct H as (out & v' & H).
  assert (Hm : (1 < 2)%Z) by reflexivity.
  assert (Hr : 2 <> 0) by discriminate.
  destruct (pretrained_weights_set_the_fused_width Qplus
              from_pretrained_is_constructed Hm eq_refl Hr) as [_ Hw].
  destruct (Hw Small.from_pretrained _ _ _ _ _ _ eq_refl H)
    as (x & we & enc & fused & wd & res & wd' & _ & _ & Hsize).
  exists out, v', enc, fused. split; assumption.
Defined.
